(** * PureMVC multicore (TypeScript): registries, notification bus, commands

    A shallow embedding of the core classes of the framework:
    - [Model]         core/Model.ts
    - [View]          core/View.ts (unnamed/part_002), and the
                      [notifyObservers] of the compiled bundle
                      (unnamed/part_000)
    - [Controller]    core/Controller.ts (unnamed/part_001)
    - [MacroCommand]  the class [MacroCommand] of interfaces/ICommand.ts
    - [Multiton]      the static instance maps of the four multitons,
                      [Facade] (unnamed/part_004) and [Notifier] (bundle).

    A JavaScript [Map] is a [gmap]; objects and functions are known by
    their identity. User code (lifecycle hooks, observer callbacks,
    constructors and bodies of commands) is a section variable acting on
    the state of the component it can reach. A promise is a [Task]:
    settled, or suspended at an [await] with the code that runs when it is
    resumed. Every function returns, next to the state, the calls it has
    made to user code, in order. *)

From stdpp Require Import gmap strings list fin_maps.

Set Default Proof Using "Type".

(** ** JavaScript values that end up as multiton keys *)

(** A private field that was never assigned reads [undefined]; TypeScript
    callers pass strings. [Map] accepts any of them as a key. *)
Inductive JsKey : Type :=
  | KUndefined
  | KNull
  | KStr (s : string).

#[global] Instance JsKey_eq_dec : EqDecision JsKey.
Proof. solve_decision. Defined.

Definition JsKey_encode (k : JsKey) : option (option string) :=
  match k with
  | KUndefined => None
  | KNull => Some None
  | KStr s => Some (Some s)
  end.

Definition JsKey_decode (o : option (option string)) : JsKey :=
  match o with
  | None => KUndefined
  | Some None => KNull
  | Some (Some s) => KStr s
  end.

#[global] Instance JsKey_countable : Countable JsKey.
Proof.
  apply (inj_countable' JsKey_encode JsKey_decode).
  by intros [].
Defined.

(** [x === null] *)
Definition strict_eq_null (k : JsKey) : bool :=
  match k with
  | KNull => true
  | _ => false
  end.

(** The message of a thrown [Error]. *)
Definition Error : Type := string.

(** ** Notification *)

Record Notification : Type := mkNotification {
  getName : string;
  getBody : option string;
  getType : option string
}.

(** ** Promises *)

(** How a promise ends. Every promise of the framework carries [void]. *)
Inductive Outcome : Type :=
  | Fulfilled
  | Rejected (e : Error).

#[global] Instance Outcome_eq_dec : EqDecision Outcome.
Proof. solve_decision. Defined.

(** A promise over a world [W]: settled (nothing of its code is left to
    run), or suspended at an [await]. Resuming a suspended promise in
    world [w] runs its code up to the next suspension point, which leaves
    the world [turn w] and the promise [next w]. The turn the event
    loop takes to hand over the value of a promise that is already
    settled runs no code and is not represented. *)
Inductive Task (W : Type) : Type :=
  | Settled (r : Outcome)
  | Pending (turn : W -> W) (next : W -> Task W).

Arguments Settled {W} r.
Arguments Pending {W} turn next.

(** What a call to user code that is declared to return a promise gives
    back: it throws before returning, or it returns a promise after having
    run its synchronous prefix. *)
Inductive Started (W : Type) : Type :=
  | Threw (e : Error)
  | Returned (t : Task W).

Arguments Threw {W} e.
Arguments Returned {W} t.

(** A call of such a function: the world after the synchronous prefix,
    and what came back. *)
Definition Call (W : Type) : Type := W -> W * Started W.

Definition is_settled {W} (t : Task W) : bool :=
  match t with
  | Settled _ => true
  | Pending _ _ => false
  end.

(** One turn of the event loop given to a suspended promise. *)
Definition resume {W} (p : Task W) (w : W) : W * Task W :=
  match p with
  | Settled _ => (w, p)
  | Pending f k => (f w, k w)
  end.

(** [await t] with nothing else scheduled in between: the task is resumed
    until it settles. *)
Fixpoint await {W} (t : Task W) (w : W) : W * Outcome :=
  match t with
  | Settled r => (w, r)
  | Pending turn next => await (next w) (turn w)
  end.

(** Inside an [async] function a synchronous throw of the callee becomes
    a rejection. *)
Definition as_task {W} (r : Started W) : Task W :=
  match r with
  | Threw e => Settled (Rejected e)
  | Returned t => t
  end.

(** ** Model *)

Module Model.

(** An [IProxy]: the object (its identity), its name, and the multiton
    key its [Notifier] part is bound to. *)
Record Proxy : Type := mkProxy {
  proxyId : nat;
  getProxyName : string;
  proxyKey : JsKey
}.

#[global] Instance Proxy_eq_dec : EqDecision Proxy.
Proof. solve_decision. Defined.

Definition initializeNotifier (key : JsKey) (p : Proxy) : Proxy :=
  {| proxyId := proxyId p; getProxyName := getProxyName p; proxyKey := key |}.

Record t : Type := mkModel {
  proxyMap : gmap string Proxy;
  multitonKey : JsKey
}.

(** Lifecycle hooks the Model itself calls. *)
Inductive Event : Type :=
  | OnRegister (p : Proxy)
  | OnRemove (p : Proxy).

#[global] Instance Event_eq_dec : EqDecision Event.
Proof. solve_decision. Defined.

Definition new (key : JsKey) : t :=
  {| proxyMap := ∅; multitonKey := key |}.

Section Hooks.

(** The bodies of [proxy.onRegister()] and [proxy.onRemove()]. *)
Variable onRegister : Proxy -> t -> t.
Variable onRemove : Proxy -> t -> t.

Definition registerProxy (proxy : Proxy) (m : t) : t * list Event :=
  let proxy' := initializeNotifier (multitonKey m) proxy in
  let m1 := {| proxyMap := <[getProxyName proxy' := proxy']> (proxyMap m);
               multitonKey := multitonKey m |} in
  (onRegister proxy' m1, [OnRegister proxy']).

Definition removeProxy (proxyName : string) (m : t)
  : t * list Event * option Proxy :=
  match proxyMap m !! proxyName with
  | Some proxy =>
      let m1 := {| proxyMap := delete proxyName (proxyMap m);
                   multitonKey := multitonKey m |} in
      (onRemove proxy m1, [OnRemove proxy], Some proxy)
  | None => (m, [], None)
  end.

Definition retrieveProxy (proxyName : string) (m : t) : option Proxy :=
  proxyMap m !! proxyName.

Definition hasProxy (proxyName : string) (m : t) : bool :=
  bool_decide (is_Some (proxyMap m !! proxyName)).

End Hooks.

(** The hooks of the base class [Proxy] are empty. *)
Definition Proxy_onRegister (_ : Proxy) (m : t) : t := m.
Definition Proxy_onRemove (_ : Proxy) (m : t) : t := m.

End Model.

(** ** Observer *)

(** Objects and functions are known by their identity. *)
Definition ObjectId : Type := nat.
Definition FunctionId : Type := nat.

Record Observer : Type := mkObserver {
  getNotifyMethod : option FunctionId;
  getNotifyContext : ObjectId
}.

#[global] Instance Observer_eq_dec : EqDecision Observer.
Proof. solve_decision. Defined.

(** [object === this.#context] *)
Definition compareNotifyContext (o : Observer) (object : ObjectId) : bool :=
  bool_decide (object = getNotifyContext o).

(** ** View *)

Module View.

(** An [IMediator]: the object, what its [getMediatorName] and
    [listNotificationInterests] answer, its [handleNotification] method,
    and the multiton key its [Notifier] part is bound to.

    [listNotificationInterests()] returns an array object, and
    [View.removeMediator] pops the names off that very object. The base
    class and a method written [return [A, B]] build a new array at each
    call; a method written [return this.interests] hands out the array
    the mediator keeps, and what is popped off it is gone from the
    mediator. [returnsOwnArray] tells the two apart; the array belongs
    to this one mediator. *)
Record Mediator : Type := mkMediator {
  mediatorId : ObjectId;
  getMediatorName : string;
  listNotificationInterests : list string;
  returnsOwnArray : bool;
  handleNotification : FunctionId;
  mediatorKey : JsKey
}.

#[global] Instance Mediator_eq_dec : EqDecision Mediator.
Proof. solve_decision. Defined.

Definition initializeNotifier (key : JsKey) (m : Mediator) : Mediator :=
  {| mediatorId := mediatorId m;
     getMediatorName := getMediatorName m;
     listNotificationInterests := listNotificationInterests m;
     returnsOwnArray := returnsOwnArray m;
     handleNotification := handleNotification m;
     mediatorKey := key |}.

(** The mediator once the array its [listNotificationInterests] returned
    has been emptied by [pop]: its own array is empty, a new array is
    lost with the call. *)
Definition interestsPopped (m : Mediator) : Mediator :=
  {| mediatorId := mediatorId m;
     getMediatorName := getMediatorName m;
     listNotificationInterests :=
       if returnsOwnArray m then [] else listNotificationInterests m;
     returnsOwnArray := returnsOwnArray m;
     handleNotification := handleNotification m;
     mediatorKey := mediatorKey m |}.

(** The two private maps of a [View]. An observer array is created by
    [registerObserver], is reachable from [#observerMap] only, and is
    never handed out, so the array stored under a name is its value. *)
Record t : Type := mkView {
  mediatorMap : gmap string Mediator;
  observerMap : gmap string (list Observer);
  multitonKey : JsKey
}.

Definition new (key : JsKey) : t :=
  {| mediatorMap := ∅; observerMap := ∅; multitonKey := key |}.

Definition set_observerMap (f : gmap string (list Observer) -> gmap string (list Observer))
  (v : t) : t :=
  {| mediatorMap := mediatorMap v;
     observerMap := f (observerMap v);
     multitonKey := multitonKey v |}.

Definition set_mediatorMap (f : gmap string Mediator -> gmap string Mediator)
  (v : t) : t :=
  {| mediatorMap := f (mediatorMap v);
     observerMap := observerMap v;
     multitonKey := multitonKey v |}.

(** What the View calls, in the order it calls it. *)
Inductive Event : Type :=
  | Invoked (o : Observer) (n : Notification)
  | Completed (o : Observer) (r : Outcome)
  | OnRegister (m : Mediator)
  | OnRemove (m : Mediator).

#[global] Instance Notification_eq_dec : EqDecision Notification.
Proof. solve_decision. Defined.

#[global] Instance Event_eq_dec : EqDecision Event.
Proof. solve_decision. Defined.

Definition registerObserver (notificationName : string) (observer : Observer)
  (v : t) : t :=
  match observerMap v !! notificationName with
  | Some observers =>
      set_observerMap (insert notificationName (observers ++ [observer])) v
  | None =>
      set_observerMap (insert notificationName [observer]) v
  end.

(** [let i = observers.length; while (i--) { ... splice(i, 1); break; }] *)
Fixpoint removeObserver_scan (i : nat) (notifyContext : ObjectId)
  (observers : list Observer) : list Observer :=
  match i with
  | O => observers
  | S i' =>
      match observers !! i' with
      | Some observer =>
          if compareNotifyContext observer notifyContext
          then delete i' observers
          else removeObserver_scan i' notifyContext observers
      | None => removeObserver_scan i' notifyContext observers
      end
  end.

Definition removeObserver (notificationName : string) (notifyContext : ObjectId)
  (v : t) : t :=
  match observerMap v !! notificationName with
  | None => v
  | Some observers =>
      let observers' :=
        removeObserver_scan (length observers) notifyContext observers in
      if bool_decide (length observers' = 0)
      then set_observerMap (delete notificationName) v
      else set_observerMap (insert notificationName observers') v
  end.

Definition retrieveMediator (mediatorName : string) (v : t) : option Mediator :=
  mediatorMap v !! mediatorName.

Definition hasMediator (mediatorName : string) (v : t) : bool :=
  bool_decide (is_Some (mediatorMap v !! mediatorName)).

Section UserCode.

(** The function [f] called as [f.call(context, notification)]. *)
Variable callback : FunctionId -> ObjectId -> Notification -> Call t.
(** The bodies of [mediator.onRegister()] and [mediator.onRemove()]. *)
Variable onRegister : Mediator -> t -> t.
Variable onRemove : Mediator -> t -> t.

(** [Observer.notifyObserver] is [async]: it never throws, it returns the
    promise of [await this.getNotifyMethod()?.call(context, notification)]. *)
Definition notifyObserver (o : Observer) (n : Notification) (v : t)
  : t * Task t :=
  match getNotifyMethod o with
  | None => (v, Settled Fulfilled)
  | Some f =>
      let '(v', r) := callback f (getNotifyContext o) n v in
      (v', as_task r)
  end.

(** The loop of [View.notifyObservers] in core/View.ts: each promise
    returned by [notifyObserver] is dropped where it is. The third
    component collects them. *)
Fixpoint notify_each (observers : list Observer) (n : Notification) (v : t)
  : t * list Event * list (Task t) :=
  match observers with
  | [] => (v, [], [])
  | observer :: rest =>
      let '(v1, p) := notifyObserver observer n v in
      let '(v2, tr, ps) := notify_each rest n v1 in
      (v2, Invoked observer n :: tr, p :: ps)
  end.

Definition notifyObservers (n : Notification) (v : t)
  : t * list Event * list (Task t) :=
  match observerMap v !! getName n with
  | Some observersRef =>
      let observers := observersRef in
      notify_each observers n v
  | None => (v, [], [])
  end.

(** The loop of the compiled bundle: [await observer.notifyObserver(n)].
    A rejection leaves the loop and rejects the caller. *)
Fixpoint await_each (observers : list Observer) (n : Notification) (v : t)
  : t * list Event * Outcome :=
  match observers with
  | [] => (v, [], Fulfilled)
  | observer :: rest =>
      let '(v1, p) := notifyObserver observer n v in
      let '(v2, r) := await p v1 in
      match r with
      | Fulfilled =>
          let '(v3, tr, r') := await_each rest n v2 in
          (v3, Invoked observer n :: Completed observer r :: tr, r')
      | Rejected e =>
          (v2, [Invoked observer n; Completed observer r], Rejected e)
      end
  end.

Definition notifyObservers_bundle (n : Notification) (v : t)
  : t * list Event * Outcome :=
  match observerMap v !! getName n with
  | Some observersRef =>
      let observers := observersRef in
      await_each observers n v
  | None => (v, [], Fulfilled)
  end.

Definition registerMediator (mediator : Mediator) (v : t) : t * list Event :=
  let name := getMediatorName mediator in
  if bool_decide (is_Some (mediatorMap v !! name)) then (v, [])
  else
    let mediator' := initializeNotifier (multitonKey v) mediator in
    let v1 := set_mediatorMap (insert name mediator') v in
    let interests := listNotificationInterests mediator' in
    let v2 :=
      if bool_decide (0 < length interests)
      then
        let observer := mkObserver (Some (handleNotification mediator'))
                                   (mediatorId mediator') in
        foldl (fun acc interest => registerObserver interest observer acc)
              v1 interests
      else v1 in
    (onRegister mediator' v2, [OnRegister mediator']).

(** [while (interests?.length > 0) this.removeObserver(interests.pop(), mediator)]
    takes the names from the end of the array and leaves the array
    empty: [onRemove] runs on, and the caller receives, the mediator
    with its interests popped. *)
Definition removeMediator (mediatorName : string) (v : t)
  : t * list Event * option Mediator :=
  match mediatorMap v !! mediatorName with
  | None => (v, [], None)
  | Some mediator =>
      let interests := listNotificationInterests mediator in
      let v1 :=
        foldl (fun acc interest => removeObserver interest (mediatorId mediator) acc)
              v (reverse interests) in
      let mediator' := interestsPopped mediator in
      let v2 := set_mediatorMap (delete mediatorName) v1 in
      (onRemove mediator' v2, [OnRemove mediator'], Some mediator')
  end.

(** *** The invariant of the observer map *)

(** No name is kept with an empty observer array. *)
Definition observer_lists_nonempty (v : t) : Prop :=
  forall name observers, observerMap v !! name = Some observers -> observers <> [].

(** Every turn of a promise keeps [P]. *)
Fixpoint task_preserves {W} (P : W -> Prop) (p : Task W) : Prop :=
  match p with
  | Settled _ => True
  | Pending f k => forall w, P w -> P (f w) /\ task_preserves P (k w)
  end.

(** User code reaches [#observerMap] through the methods of the View
    only: whatever it does keeps what those methods keep. *)
Definition encapsulated : Prop :=
  (forall f ctx n v,
      observer_lists_nonempty v ->
      observer_lists_nonempty (callback f ctx n v).1
      /\ task_preserves observer_lists_nonempty (as_task (callback f ctx n v).2))
  /\ (forall m v, observer_lists_nonempty v -> observer_lists_nonempty (onRegister m v))
  /\ (forall m v, observer_lists_nonempty v -> observer_lists_nonempty (onRemove m v)).

(** The states a View goes through, with the promises that
    [notifyObservers] of core/View.ts has left behind: the View starts
    empty and changes by the calls of its methods and by the turns the
    event loop gives to those promises. *)
Inductive reachable : t -> list (Task t) -> Prop :=
  | reach_new key : reachable (new key) []
  | reach_registerObserver name o v fl :
      reachable v fl -> reachable (registerObserver name o v) fl
  | reach_removeObserver name ctx v fl :
      reachable v fl -> reachable (removeObserver name ctx v) fl
  | reach_registerMediator m v fl :
      reachable v fl -> reachable (registerMediator m v).1 fl
  | reach_removeMediator name v fl :
      reachable v fl -> reachable (removeMediator name v).1.1 fl
  | reach_notifyObservers n v fl :
      reachable v fl ->
      reachable (notifyObservers n v).1.1 (fl ++ (notifyObservers n v).2)
  | reach_notifyObservers_bundle n v fl :
      reachable v fl -> reachable (notifyObservers_bundle n v).1.1 fl
  | reach_resume i p v fl :
      reachable v fl -> fl !! i = Some p ->
      reachable (resume p v).1 (<[i := (resume p v).2]> fl).

End UserCode.

(** The observers a trace shows as called, in the order of the calls. *)
Definition invoked (trace : list Event) : list Observer :=
  omap (fun e => match e with Invoked o _ => Some o | _ => None end) trace.

End View.

(** ** Commands *)

(** A [CommandConstructor] is known by its identity. *)
Definition CommandClass : Type := nat.

(** ** Controller *)

Module Controller.

(** A [Controller] with the [View] its [view] field refers to. *)
Record t : Type := mkController {
  controllerId : ObjectId;
  view : option View.t;
  commandMap : gmap string CommandClass;
  multitonKey : JsKey
}.

Definition set_view (f : View.t -> View.t) (c : t) : t :=
  {| controllerId := controllerId c;
     view := f <$> view c;
     commandMap := commandMap c;
     multitonKey := multitonKey c |}.

Definition set_commandMap (f : gmap string CommandClass -> gmap string CommandClass)
  (c : t) : t :=
  {| controllerId := controllerId c;
     view := view c;
     commandMap := f (commandMap c);
     multitonKey := multitonKey c |}.

(** The constructor, after [initializeController] has fetched the view. *)
Definition new (id : ObjectId) (key : JsKey) (v : View.t) : t :=
  {| controllerId := id; view := Some v; commandMap := ∅; multitonKey := key |}.

Inductive Event : Type :=
  | Instantiated (commandClass : CommandClass)
  | Executed (commandClass : CommandClass) (key : JsKey) (n : Notification).

#[global] Instance Event_eq_dec : EqDecision Event.
Proof. solve_decision. Defined.

Definition hasCommand (notificationName : string) (c : t) : bool :=
  bool_decide (is_Some (commandMap c !! notificationName)).

(** The observers subscribed under a name with the controller as context. *)
Definition subscriptions (notificationName : string) (c : t) : list Observer :=
  match view c with
  | Some v =>
      filter (fun o => getNotifyContext o = controllerId c)
             (default [] (View.observerMap v !! notificationName))
  | None => []
  end.

(** The controller is subscribed once under the names it has a command
    for, and not under the others. *)
Definition subscribed_once (c : t) : Prop :=
  forall name,
    length (subscriptions name c) = if hasCommand name c then 1 else 0.

Section UserCode.

(** The function object [Controller.prototype.executeCommand]. *)
Variable executeCommand_fn : FunctionId.
(** [new commandClass()]: may throw. *)
Variable construct : CommandClass -> t -> t * option Error.
(** [command.execute(notification)] on an instance bound to a key. *)
Variable command_execute : CommandClass -> JsKey -> Notification -> Call t.

Definition executeCommand (n : Notification) (c : t)
  : t * list Event * Task t :=
  match commandMap c !! getName n with
  | Some commandClass =>
      match construct commandClass c with
      | (c1, Some e) => (c1, [Instantiated commandClass], Settled (Rejected e))
      | (c1, None) =>
          let key := multitonKey c1 in
          let '(c2, r) := command_execute commandClass key n c1 in
          (c2, [Instantiated commandClass; Executed commandClass key n], as_task r)
      end
  | None => (c, [], Settled Fulfilled)
  end.

Definition registerCommand (notificationName : string)
  (commandClass : CommandClass) (c : t) : t :=
  let c1 :=
    if negb (hasCommand notificationName c)
    then set_view (View.registerObserver notificationName
                     (mkObserver (Some executeCommand_fn) (controllerId c))) c
    else c in
  set_commandMap (insert notificationName commandClass) c1.

Definition removeCommand (notificationName : string) (c : t) : t :=
  if hasCommand notificationName c
  then
    let c1 := set_view (View.removeObserver notificationName (controllerId c)) c in
    set_commandMap (delete notificationName) c1
  else c.

(** The states of a controller and its view: the controller is built on
    an empty view, commands are registered and removed, and the other
    clients of the view subscribe and unsubscribe contexts of their own. *)
Inductive reachable : t -> Prop :=
  | reach_new id key : reachable (new id key (View.new key))
  | reach_registerCommand name commandClass c :
      reachable c -> reachable (registerCommand name commandClass c)
  | reach_removeCommand name c :
      reachable c -> reachable (removeCommand name c)
  | reach_registerObserver name o c :
      reachable c -> getNotifyContext o <> controllerId c ->
      reachable (set_view (View.registerObserver name o) c)
  | reach_removeObserver name ctx c :
      reachable c -> ctx <> controllerId c ->
      reachable (set_view (View.removeObserver name ctx) c).

End UserCode.

End Controller.

(** ** MacroCommand *)

Module MacroCommand.

Record t : Type := mkMacroCommand {
  subCommands : list CommandClass;
  sequentialExecution : bool;
  multitonKey : JsKey
}.

(** [constructor(sequentialExeuction = false)]: the [Notifier] key is not
    assigned yet. *)
Definition new (sequentialExeuction : bool) : t :=
  {| subCommands := [];
     sequentialExecution := sequentialExeuction;
     multitonKey := KUndefined |}.

Definition addSubCommand (commandClass : CommandClass) (m : t) : t :=
  {| subCommands := subCommands m ++ [commandClass];
     sequentialExecution := sequentialExecution m;
     multitonKey := multitonKey m |}.

Definition initializeNotifier (key : JsKey) (m : t) : t :=
  {| subCommands := subCommands m;
     sequentialExecution := sequentialExecution m;
     multitonKey := key |}.

(** What [execute] does to its sub-commands; [i] is the position in the
    sub-command array. [Finished i r]: the promise returned by the
    [execute] of sub-command [i] has settled with [r]. *)
Inductive Event : Type :=
  | Instantiated (i : nat) (commandClass : CommandClass)
  | Executed (i : nat) (commandClass : CommandClass) (key : JsKey) (n : Notification)
  | Finished (i : nat) (r : Outcome).

#[global] Instance Event_eq_dec : EqDecision Event.
Proof. solve_decision. Defined.

Section UserCode.

Context {W : Type}.

(** [new commandClass()]: may throw. *)
Variable construct : CommandClass -> W -> W * option Error.
(** [commandInstance.execute(notification)] on an instance bound to a key. *)
Variable command_execute : CommandClass -> JsKey -> Notification -> Call W.

(** The [for] loop of the sequential branch, from position [i] on. *)
Fixpoint execute_sequential (i : nat) (subCommands : list CommandClass)
  (key : JsKey) (n : Notification) (w : W) : W * list Event * Outcome :=
  match subCommands with
  | [] => (w, [], Fulfilled)
  | commandClass :: rest =>
      match construct commandClass w with
      | (w1, Some e) => (w1, [Instantiated i commandClass], Rejected e)
      | (w1, None) =>
          match command_execute commandClass key n w1 with
          | (w2, Threw e) =>
              (w2, [Instantiated i commandClass; Executed i commandClass key n],
               Rejected e)
          | (w2, Returned p) =>
              let '(w3, r) := await p w2 in
              match r with
              | Fulfilled =>
                  let '(w4, tr, r') := execute_sequential (S i) rest key n w3 in
                  (w4, Instantiated i commandClass :: Executed i commandClass key n
                         :: Finished i r :: tr, r')
              | Rejected e =>
                  (w3, [Instantiated i commandClass; Executed i commandClass key n;
                        Finished i r], Rejected e)
              end
          end
      end
  end.

(** [this.#subCommands.map(...)] of the parallel branch, from position [i]
    on: every callback runs synchronously, one after the other; a throw
    leaves [map]. *)
Fixpoint start_all (i : nat) (subCommands : list CommandClass)
  (key : JsKey) (n : Notification) (w : W)
  : W * list Event * (Error + list (Task W)) :=
  match subCommands with
  | [] => (w, [], inr [])
  | commandClass :: rest =>
      match construct commandClass w with
      | (w1, Some e) => (w1, [Instantiated i commandClass], inl e)
      | (w1, None) =>
          match command_execute commandClass key n w1 with
          | (w2, Threw e) =>
              (w2, [Instantiated i commandClass; Executed i commandClass key n],
               inl e)
          | (w2, Returned p) =>
              let '(w3, tr, ps) := start_all (S i) rest key n w2 in
              (w3, Instantiated i commandClass :: Executed i commandClass key n :: tr,
               match ps with
               | inl e => inl e
               | inr ps' => inr (p :: ps')
               end)
          end
      end
  end.

(** *** [Promise.allSettled] *)

(** Positions of the promises that are still pending, from position [i]. *)
Fixpoint pending_from (i : nat) (ps : list (Task W)) : list nat :=
  match ps with
  | [] => []
  | p :: rest =>
      if is_settled p then pending_from (S i) rest
      else i :: pending_from (S i) rest
  end.

Definition finished (i : nat) (p : Task W) : list Event :=
  match p with
  | Settled r => [Finished i r]
  | Pending _ _ => []
  end.

(** The promises that were already settled when [map] returned. *)
Fixpoint finished_from (i : nat) (ps : list (Task W)) : list Event :=
  match ps with
  | [] => []
  | p :: rest => finished i p ++ finished_from (S i) rest
  end.

(** The promises still pending are resumed one after the other, each
    until it settles. *)
Fixpoint drain (i : nat) (ps : list (Task W)) (w : W)
  : W * list Event * list (Task W) :=
  match ps with
  | [] => (w, [], [])
  | p :: rest =>
      if is_settled p
      then
        let '(w1, tr, rest') := drain (S i) rest w in
        (w1, tr, p :: rest')
      else
        let '(w1, r) := await p w in
        let '(w2, tr, rest') := drain (S i) rest w1 in
        (w2, Finished i r :: tr, Settled r :: rest')
  end.

(** The event loop while [Promise.allSettled] is awaited. Which pending
    promise is resumed at each turn is not decided by the framework: the
    [schedule] gives, turn by turn, the rank of the one that is resumed
    among those still pending; when the schedule is used up the rest is
    drained in array order. Every interleaving is some schedule. *)
Fixpoint settle_all (schedule : list nat) (ps : list (Task W)) (w : W)
  : W * list Event * list (Task W) :=
  match schedule with
  | [] => drain 0 ps w
  | choice :: later =>
      let pend := pending_from 0 ps in
      match pend !! (choice `mod` length pend) with
      | None => (w, [], ps)
      | Some i =>
          match ps !! i with
          | Some p =>
              let '(w1, p') := resume p w in
              let '(w2, tr, ps') := settle_all later (<[i := p']> ps) w1 in
              (w2, finished i p' ++ tr, ps')
          | None => (w, [], ps)
          end
      end
  end.

(** The parallel branch: [await Promise.allSettled(map(...))], whose
    result array is dropped. *)
Definition execute_parallel (schedule : list nat) (subCommands : list CommandClass)
  (key : JsKey) (n : Notification) (w : W) : W * list Event * Outcome :=
  match start_all 0 subCommands key n w with
  | (w1, tr, inl e) => (w1, tr, Rejected e)
  | (w1, tr, inr ps) =>
      let '(w2, tr', _) := settle_all schedule ps w1 in
      (w2, tr ++ finished_from 0 ps ++ tr', Fulfilled)
  end.

(** [await macro.execute(notification)]. *)
Definition execute (schedule : list nat) (n : Notification) (m : t) (w : W)
  : W * list Event * Outcome :=
  if negb (sequentialExecution m)
  then execute_parallel schedule (subCommands m) (multitonKey m) n w
  else execute_sequential 0 (subCommands m) (multitonKey m) n w.

(** A command class whose constructor returns and whose [execute]
    hands a promise back (as an [async] method does): it can fail by
    rejecting that promise only. *)
Definition asynchronous (commandClass : CommandClass) : Prop :=
  (forall w, (construct commandClass w).2 = None)
  /\ (forall key n w, exists p, (command_execute commandClass key n w).2 = Returned p).

(** *** What the sub-commands do, told by their own code

    The relations below speak of [new commandClass()], of
    [commandInstance.execute(notification)] and of the promise it
    returns; the loops of [execute] do not occur in them. *)

(** Taken in the world [w], the class throws before it has handed a
    promise back, from its constructor or from its [execute], and leaves
    the world [w']. At position [i] of a macro that shows as [tr]. *)
Inductive throws (i : nat) (commandClass : CommandClass) (key : JsKey)
  (n : Notification) (w : W) : W -> list Event -> Error -> Prop :=
  | constructor_throws w1 e :
      construct commandClass w = (w1, Some e) ->
      throws i commandClass key n w w1 [Instantiated i commandClass] e
  | execute_throws w1 w2 e :
      construct commandClass w = (w1, None) ->
      command_execute commandClass key n w1 = (w2, Threw e) ->
      throws i commandClass key n w w2
        [Instantiated i commandClass; Executed i commandClass key n] e.

(** Taken in the world [w], the class fails: it throws, or the promise
    its [execute] returns is rejected once awaited. *)
Inductive fails (i : nat) (commandClass : CommandClass) (key : JsKey)
  (n : Notification) (w : W) : W -> list Event -> Error -> Prop :=
  | fails_by_throwing w' tr e :
      throws i commandClass key n w w' tr e ->
      fails i commandClass key n w w' tr e
  | fails_by_rejecting w1 w2 p w3 e :
      construct commandClass w = (w1, None) ->
      command_execute commandClass key n w1 = (w2, Returned p) ->
      await p w2 = (w3, Rejected e) ->
      fails i commandClass key n w w3
        [Instantiated i commandClass; Executed i commandClass key n;
         Finished i (Rejected e)] e.

(** From the world [w], each class of the list in turn is constructed,
    returns a promise from its [execute], and that promise is fulfilled
    once awaited; the next class is taken in the world the previous one
    has left, the last one leaves [w']. *)
Inductive each_fulfilled (key : JsKey) (n : Notification)
  : list CommandClass -> W -> W -> Prop :=
  | each_fulfilled_nil w : each_fulfilled key n [] w w
  | each_fulfilled_cons commandClass rest w w1 w2 p w3 w' :
      construct commandClass w = (w1, None) ->
      command_execute commandClass key n w1 = (w2, Returned p) ->
      await p w2 = (w3, Fulfilled) ->
      each_fulfilled key n rest w3 w' ->
      each_fulfilled key n (commandClass :: rest) w w'.

(** From the world [w], each class of the list in turn is constructed
    and returns a promise from its [execute], which nobody resumes; the
    next class is taken in the world the previous one has left, the
    last one leaves [w']. *)
Inductive each_returns_a_promise (key : JsKey) (n : Notification)
  : list CommandClass -> W -> W -> Prop :=
  | each_returns_nil w : each_returns_a_promise key n [] w w
  | each_returns_cons commandClass rest w w1 w2 p w' :
      construct commandClass w = (w1, None) ->
      command_execute commandClass key n w1 = (w2, Returned p) ->
      each_returns_a_promise key n rest w2 w' ->
      each_returns_a_promise key n (commandClass :: rest) w w'.

End UserCode.

(** The position of the sub-command an event is about. *)
Definition position (ev : Event) : nat :=
  match ev with
  | Instantiated i _ => i
  | Executed i _ _ _ => i
  | Finished i _ => i
  end.

Definition is_Finished (ev : Event) : Prop :=
  match ev with
  | Finished _ _ => True
  | _ => False
  end.

(** Sub-commands run one after the other, each to its fulfilment before
    the next is instantiated. *)
Fixpoint in_series (i : nat) (subCommands : list CommandClass) (key : JsKey)
  (n : Notification) : list Event :=
  match subCommands with
  | [] => []
  | commandClass :: rest =>
      Instantiated i commandClass :: Executed i commandClass key n
        :: Finished i Fulfilled :: in_series (S i) rest key n
  end.

(** Sub-commands instantiated and started one after the other. *)
Fixpoint started_in_order (i : nat) (subCommands : list CommandClass) (key : JsKey)
  (n : Notification) : list Event :=
  match subCommands with
  | [] => []
  | commandClass :: rest =>
      Instantiated i commandClass :: Executed i commandClass key n
        :: started_in_order (S i) rest key n
  end.

(** The completion of the macro tells that a sub-command has failed. *)
Definition surfaces_failure {W} (r : W * list Event * Outcome) : Prop :=
  (exists i e, Finished i (Rejected e) ∈ r.1.2) -> exists e, r.2 = Rejected e.

End MacroCommand.

(** ** The multiton instance maps, [Facade] and [Notifier] *)

Module Multiton.

(** The four static [instanceMap]s. An instance is known by its identity;
    [allocated] counts the objects constructed so far. *)
Record t : Type := mkStatics {
  Model_instanceMap : gmap JsKey ObjectId;
  View_instanceMap : gmap JsKey ObjectId;
  Controller_instanceMap : gmap JsKey ObjectId;
  Facade_instanceMap : gmap JsKey ObjectId;
  allocated : nat
}.

Definition empty : t :=
  {| Model_instanceMap := ∅; View_instanceMap := ∅;
     Controller_instanceMap := ∅; Facade_instanceMap := ∅; allocated := 0 |}.

Definition Model_MULTITON_MSG : Error :=
  "Model instance for this multiton key already constructed!".
Definition View_MULTITON_MSG : Error :=
  "View instance for this multiton key already constructed!".
Definition Controller_MULTITON_MSG : Error :=
  "Controller instance for this multiton key already constructed!".
Definition Facade_MULTITON_MSG : Error :=
  "Facade instance for this multiton key already constructed!".
Definition Notifier_MULTITON_MSG : Error :=
  "multitonKey for this Notifier not yet initialized!".

(** [new Model(key)] *)
Definition Model_new (key : JsKey) (st : t) : t * (Error + ObjectId) :=
  if bool_decide (is_Some (Model_instanceMap st !! key))
  then (st, inl Model_MULTITON_MSG)
  else
    let this := allocated st in
    ({| Model_instanceMap := <[key := this]> (Model_instanceMap st);
        View_instanceMap := View_instanceMap st;
        Controller_instanceMap := Controller_instanceMap st;
        Facade_instanceMap := Facade_instanceMap st;
        allocated := S (allocated st) |}, inr this).

Definition Model_getInstance (key : JsKey) (st : t) : t * option ObjectId :=
  let st1 :=
    if negb (bool_decide (is_Some (Model_instanceMap st !! key)))
    then
      match Model_new key st with
      | (st', inr this) =>
          {| Model_instanceMap := <[key := this]> (Model_instanceMap st');
             View_instanceMap := View_instanceMap st';
             Controller_instanceMap := Controller_instanceMap st';
             Facade_instanceMap := Facade_instanceMap st';
             allocated := allocated st' |}
      | (st', inl _) => st'
      end
    else st in
  (st1, Model_instanceMap st1 !! key).

Definition removeModel (key : JsKey) (st : t) : t :=
  {| Model_instanceMap := delete key (Model_instanceMap st);
     View_instanceMap := View_instanceMap st;
     Controller_instanceMap := Controller_instanceMap st;
     Facade_instanceMap := Facade_instanceMap st;
     allocated := allocated st |}.

(** [new View(key)] *)
Definition View_new (key : JsKey) (st : t) : t * (Error + ObjectId) :=
  if bool_decide (is_Some (View_instanceMap st !! key))
  then (st, inl View_MULTITON_MSG)
  else
    let this := allocated st in
    ({| Model_instanceMap := Model_instanceMap st;
        View_instanceMap := <[key := this]> (View_instanceMap st);
        Controller_instanceMap := Controller_instanceMap st;
        Facade_instanceMap := Facade_instanceMap st;
        allocated := S (allocated st) |}, inr this).

Definition View_getInstance (key : JsKey) (st : t) : t * option ObjectId :=
  let st1 :=
    if negb (bool_decide (is_Some (View_instanceMap st !! key)))
    then
      match View_new key st with
      | (st', inr this) =>
          {| Model_instanceMap := Model_instanceMap st';
             View_instanceMap := <[key := this]> (View_instanceMap st');
             Controller_instanceMap := Controller_instanceMap st';
             Facade_instanceMap := Facade_instanceMap st';
             allocated := allocated st' |}
      | (st', inl _) => st'
      end
    else st in
  (st1, View_instanceMap st1 !! key).

Definition removeView (key : JsKey) (st : t) : t :=
  {| Model_instanceMap := Model_instanceMap st;
     View_instanceMap := delete key (View_instanceMap st);
     Controller_instanceMap := Controller_instanceMap st;
     Facade_instanceMap := Facade_instanceMap st;
     allocated := allocated st |}.

(** [new Controller(key)]; [initializeController] fetches the view. *)
Definition Controller_new (key : JsKey) (st : t) : t * (Error + ObjectId) :=
  if bool_decide (is_Some (Controller_instanceMap st !! key))
  then (st, inl Controller_MULTITON_MSG)
  else
    let this := allocated st in
    let st1 :=
      {| Model_instanceMap := Model_instanceMap st;
         View_instanceMap := View_instanceMap st;
         Controller_instanceMap := <[key := this]> (Controller_instanceMap st);
         Facade_instanceMap := Facade_instanceMap st;
         allocated := S (allocated st) |} in
    (fst (View_getInstance key st1), inr this).

Definition Controller_getInstance (key : JsKey) (st : t) : t * option ObjectId :=
  let st1 :=
    if negb (bool_decide (is_Some (Controller_instanceMap st !! key)))
    then
      match Controller_new key st with
      | (st', inr this) =>
          {| Model_instanceMap := Model_instanceMap st';
             View_instanceMap := View_instanceMap st';
             Controller_instanceMap := <[key := this]> (Controller_instanceMap st');
             Facade_instanceMap := Facade_instanceMap st';
             allocated := allocated st' |}
      | (st', inl _) => st'
      end
    else st in
  (st1, Controller_instanceMap st1 !! key).

Definition removeController (key : JsKey) (st : t) : t :=
  {| Model_instanceMap := Model_instanceMap st;
     View_instanceMap := View_instanceMap st;
     Controller_instanceMap := delete key (Controller_instanceMap st);
     Facade_instanceMap := Facade_instanceMap st;
     allocated := allocated st |}.

(** [initializeFacade]: model, controller, view, in that order. The
    fields of a new facade are unset, so each initializer fetches. *)
Definition initializeFacade (key : JsKey) (st : t) : t :=
  let st1 := fst (Model_getInstance key st) in
  let st2 := fst (Controller_getInstance key st1) in
  fst (View_getInstance key st2).

(** [new Facade(key)] *)
Definition Facade_new (key : JsKey) (st : t) : t * (Error + ObjectId) :=
  if bool_decide (is_Some (Facade_instanceMap st !! key))
  then (st, inl Facade_MULTITON_MSG)
  else
    let this := allocated st in
    let st1 :=
      {| Model_instanceMap := Model_instanceMap st;
         View_instanceMap := View_instanceMap st;
         Controller_instanceMap := Controller_instanceMap st;
         Facade_instanceMap := <[key := this]> (Facade_instanceMap st);
         allocated := S (allocated st) |} in
    (initializeFacade key st1, inr this).

Definition Facade_getInstance (key : JsKey) (st : t) : t * option ObjectId :=
  let st1 :=
    if negb (bool_decide (is_Some (Facade_instanceMap st !! key)))
    then
      match Facade_new key st with
      | (st', inr this) =>
          {| Model_instanceMap := Model_instanceMap st';
             View_instanceMap := View_instanceMap st';
             Controller_instanceMap := Controller_instanceMap st';
             Facade_instanceMap := <[key := this]> (Facade_instanceMap st');
             allocated := allocated st' |}
      | (st', inl _) => st'
      end
    else st in
  (st1, Facade_instanceMap st1 !! key).

Definition hasCore (key : JsKey) (st : t) : bool :=
  bool_decide (is_Some (Facade_instanceMap st !! key)).

Definition removeCore (key : JsKey) (st : t) : t :=
  if negb (bool_decide (is_Some (Facade_instanceMap st !! key)))
  then st
  else
    let st1 := removeModel key st in
    let st2 := removeView key st1 in
    let st3 := removeController key st2 in
    {| Model_instanceMap := Model_instanceMap st3;
       View_instanceMap := View_instanceMap st3;
       Controller_instanceMap := Controller_instanceMap st3;
       Facade_instanceMap := delete key (Facade_instanceMap st3);
       allocated := allocated st3 |}.

(** *** Notifier *)

(** The private field [#multitonKey] of a [Notifier]. The class declares
    it without an initializer. *)
Record Notifier : Type := mkNotifier {
  Notifier_multitonKey : JsKey
}.

Definition Notifier_new : Notifier :=
  {| Notifier_multitonKey := KUndefined |}.

Definition initializeNotifier (key : JsKey) (_ : Notifier) : Notifier :=
  {| Notifier_multitonKey := key |}.

(** What the getter [facade] gives: a thrown error, or the value of
    [Facade.getInstance(this.#multitonKey)]. *)
Definition facade (this : Notifier) (st : t) : t * (Error + option ObjectId) :=
  if strict_eq_null (Notifier_multitonKey this)
  then (st, inl Notifier_MULTITON_MSG)
  else
    let '(st', f) := Facade_getInstance (Notifier_multitonKey this) st in
    (st', inr f).

End Multiton.

(** ** Facade: sending a notification *)

Module Facade.

(** A facade with its controller. [#view] and the [view] of the
    controller are the one object [View.getInstance] gives for the key,
    so the view of the facade is the view held by the controller. The
    model takes no part in the dispatch and is left out. *)
Definition t : Type := Controller.t.

Inductive Event : Type :=
  | ByView (e : View.Event)
  | ByController (e : Controller.Event).

#[global] Instance Event_eq_dec : EqDecision Event.
Proof. solve_decision. Defined.

Definition hasCommand (notificationName : string) (fa : t) : bool :=
  Controller.hasCommand notificationName fa.

Section UserCode.

(** The function object [Controller.prototype.executeCommand]. *)
Variable executeCommand_fn : FunctionId.
Variable construct : CommandClass -> t -> t * option Error.
Variable command_execute : CommandClass -> JsKey -> Notification -> Call t.
(** The other functions that observers wrap. *)
Variable callback : FunctionId -> ObjectId -> Notification -> Call t.

Definition registerCommand (notificationName : string)
  (commandClassRef : CommandClass) (fa : t) : t :=
  Controller.registerCommand executeCommand_fn notificationName commandClassRef fa.

Definition removeCommand (notificationName : string) (fa : t) : t :=
  Controller.removeCommand notificationName fa.

(** [f.call(context, notification)]: [executeCommand] called on the
    controller is the method of the controller, any other call is the
    business of user code. *)
Definition call (f : FunctionId) (context : ObjectId) (n : Notification) (fa : t)
  : t * list Event * Started t :=
  if bool_decide (f = executeCommand_fn /\ context = Controller.controllerId fa)
  then
    let '(fa', tr, p) := Controller.executeCommand construct command_execute n fa in
    (fa', ByController <$> tr, Returned p)
  else
    let '(fa', r) := callback f context n fa in
    (fa', [], r).

(** [Observer.notifyObserver] *)
Definition notifyObserver (o : Observer) (n : Notification) (fa : t)
  : t * list Event * Task t :=
  match getNotifyMethod o with
  | None => (fa, [], Settled Fulfilled)
  | Some f =>
      let '(fa', tr, r) := call f (getNotifyContext o) n fa in
      (fa', tr, as_task r)
  end.

(** The loop of [View.notifyObservers] of core/View.ts, in the world of
    the facade: the promises are dropped. *)
Fixpoint notify_each (observers : list Observer) (n : Notification) (fa : t)
  : t * list Event * list (Task t) :=
  match observers with
  | [] => (fa, [], [])
  | observer :: rest =>
      let '(fa1, tr1, p) := notifyObserver observer n fa in
      let '(fa2, tr2, ps) := notify_each rest n fa1 in
      (fa2, ByView (View.Invoked observer n) :: tr1 ++ tr2, p :: ps)
  end.

(** [if (this.#view) return this.#view.notifyObservers(notification)] *)
Definition notifyObservers (n : Notification) (fa : t)
  : t * list Event * list (Task t) :=
  match Controller.view fa with
  | Some v =>
      match View.observerMap v !! getName n with
      | Some observersRef =>
          let observers := observersRef in
          notify_each observers n fa
      | None => (fa, [], [])
      end
  | None => (fa, [], [])
  end.


End UserCode.

End Facade.

(** * Notions used to state further properties *)

(** An instance map grows at one key only: the entries of the other keys
    are the same, an instance registered under the key stays, and an
    instance that appears under the key was allocated meanwhile. *)
Definition map_grows_at (key : JsKey) (before after : nat)
  (m m' : gmap JsKey ObjectId) : Prop :=
  (forall key', key' <> key -> m' !! key' = m !! key')
  /\ (forall id, m !! key = Some id -> m' !! key = Some id)
  /\ (forall id, m' !! key = Some id ->
        m !! key = Some id \/ before <= id < after).

Definition grows_at (key : JsKey) (st st' : Multiton.t) : Prop :=
  Multiton.allocated st <= Multiton.allocated st'
  /\ map_grows_at key (Multiton.allocated st) (Multiton.allocated st')
       (Multiton.Model_instanceMap st) (Multiton.Model_instanceMap st')
  /\ map_grows_at key (Multiton.allocated st) (Multiton.allocated st')
       (Multiton.View_instanceMap st) (Multiton.View_instanceMap st')
  /\ map_grows_at key (Multiton.allocated st) (Multiton.allocated st')
       (Multiton.Controller_instanceMap st) (Multiton.Controller_instanceMap st')
  /\ map_grows_at key (Multiton.allocated st) (Multiton.allocated st')
       (Multiton.Facade_instanceMap st) (Multiton.Facade_instanceMap st').

(** The object is registered in one of the four instance maps. *)
Definition registered (st : Multiton.t) (id : ObjectId) : Prop :=
  exists key,
    Multiton.Model_instanceMap st !! key = Some id
    \/ Multiton.View_instanceMap st !! key = Some id
    \/ Multiton.Controller_instanceMap st !! key = Some id
    \/ Multiton.Facade_instanceMap st !! key = Some id.

(** Every registered object is one of those constructed so far. *)
Definition instances_allocated (st : Multiton.t) : Prop :=
  forall id, registered st id -> id < Multiton.allocated st.




(** * Scenarios *)

Module Scenario.

(** Two proxies of the same name. *)
Definition score_old : Model.Proxy := Model.mkProxy 1 "score" KUndefined.
Definition score_new : Model.Proxy := Model.mkProxy 2 "score" KUndefined.
Definition model_with_score : Model.t :=
  (Model.registerProxy Model.Proxy_onRegister score_old (Model.new (KStr "core"))).1.

(** Three observers and the functions they wrap. The first function
    unsubscribes the second observer from the name it is notified of,
    subscribes a third one under that name, and then suspends; when it is
    resumed it subscribes the third observer under ["late"]. The second
    function records whether it starts before or after that. *)
Definition o1 : Observer := mkObserver (Some 1) 101.
Definition o2 : Observer := mkObserver (Some 2) 102.
Definition o3 : Observer := mkObserver (Some 3) 103.

Definition callbacks (f : FunctionId) (_ : ObjectId) (n : Notification)
  : Call View.t :=
  fun v =>
    match f with
    | 1 =>
        (View.registerObserver (getName n) o3
           (View.removeObserver (getName n) 102 v),
         Returned (Pending (View.registerObserver "late" o3)
                           (fun _ => Settled Fulfilled)))
    | 2 =>
        (match View.observerMap v !! "late" with
         | Some _ => View.registerObserver "first had completed" o2 v
         | None => View.registerObserver "first was pending" o2 v
         end,
         Returned (Settled Fulfilled))
    | _ => (v, Returned (Settled Fulfilled))
    end.

Definition no_hook (_ : View.Mediator) (v : View.t) : View.t := v.

Definition game_over : Notification := mkNotification "GAME_OVER" None None.

Definition view_with_two_observers : View.t :=
  View.registerObserver "GAME_OVER" o2
    (View.registerObserver "GAME_OVER" o1 (View.new (KStr "core"))).

(** Two mediators of the same name. *)
Definition first_mediator : View.Mediator :=
  View.mkMediator 201 "M" ["GAME_OVER"] false 7 KUndefined.
Definition second_mediator : View.Mediator :=
  View.mkMediator 202 "M" ["GAME_OVER"; "PAUSE"] false 8 KUndefined.

Definition view_with_mediator : View.t :=
  (View.registerMediator no_hook first_mediator (View.new (KStr "core"))).1.

(** A mediator whose [listNotificationInterests] returns the array it
    keeps. *)
Definition stored_mediator : View.Mediator :=
  View.mkMediator 203 "S" ["GAME_OVER"; "PAUSE"] true 9 KUndefined.

Definition view_with_stored_mediator : View.t :=
  (View.registerMediator no_hook stored_mediator (View.new (KStr "core"))).1.

(** A controller and two command classes; constructors return and
    [execute] is fulfilled at once. *)
Definition controller : Controller.t :=
  Controller.new 300 (KStr "core") (View.new (KStr "core")).

Definition construct_ok {W} (_ : CommandClass) (w : W) : W * option Error :=
  (w, None).

Definition execute_at_once {W} (_ : CommandClass) (_ : JsKey) (_ : Notification)
  : Call W :=
  fun w => (w, Returned (Settled Fulfilled)).

(** Command classes that write their name in a log: [1] suspends and
    then rejects, [2] suspends twice and is fulfilled, [3] throws before
    it returns a promise; any other is fulfilled at once. *)
Definition logging_execute (commandClass : CommandClass) (_ : JsKey)
  (_ : Notification) : Call (list string) :=
  fun log =>
    match commandClass with
    | 1 =>
        (log ++ ["A starts"],
         Returned (Pending (fun l => l ++ ["A fails"])
                           (fun _ => Settled (Rejected "A failed"))))
    | 2 =>
        (log ++ ["B starts"],
         Returned (Pending (fun l => l ++ ["B goes on"])
                    (fun _ => Pending (fun l => l ++ ["B ends"])
                                      (fun _ => Settled Fulfilled))))
    | 3 => (log ++ ["C throws"], Threw "C threw")
    | _ => (log, Returned (Settled Fulfilled))
    end.

Definition macro_of (sequential : bool) (subs : list CommandClass)
  : MacroCommand.t :=
  MacroCommand.initializeNotifier (KStr "core")
    (foldl (fun m c => MacroCommand.addSubCommand c m)
           (MacroCommand.new sequential) subs).

(** An observer whose function throws, between two that complete. *)
Definition o4 : Observer := mkObserver (Some 4) 104.
Definition o5 : Observer := mkObserver (Some 5) 105.

Definition throwing_callbacks (f : FunctionId) (_ : ObjectId) (_ : Notification)
  : Call View.t :=
  fun v =>
    match f with
    | 4 => (v, Threw "handler failed")
    | _ => (v, Returned (Settled Fulfilled))
    end.

Definition view_with_a_throwing_observer : View.t :=
  View.registerObserver "GAME_OVER" o5
    (View.registerObserver "GAME_OVER" o4
       (View.registerObserver "GAME_OVER" o3 (View.new (KStr "core")))).

Definition pause : Notification := mkNotification "PAUSE" None None.

End Scenario.

(** * Properties *)

(** ** Model *)

Section ModelFacts.

Import Model.

Variable onRegister : Proxy -> Model.t -> Model.t.

Lemma registerProxy_trace (proxy : Proxy) (m : Model.t) :
  (registerProxy onRegister proxy m).2
  = [OnRegister (initializeNotifier (multitonKey m) proxy)].
Proof. reflexivity. Qed.

Lemma registerProxy_state (proxy : Proxy) (m : Model.t) :
  (registerProxy onRegister proxy m).1
  = onRegister (initializeNotifier (multitonKey m) proxy)
      {| proxyMap := <[getProxyName proxy := initializeNotifier (multitonKey m) proxy]>
                       (proxyMap m);
         multitonKey := multitonKey m |}.
Proof. reflexivity. Qed.

(** C9. Registering a proxy under a name that is already taken puts the
    new proxy in the slot of the old one; the only hook the Model calls
    is [onRegister], on the new proxy, so no [onRemove] reaches the
    displaced proxy (nor any other); provided the hook itself leaves the
    registry alone, every other name keeps its proxy and the set of
    registered names is the same. *)
Theorem registerProxy_overwrites_without_onRemove
  (proxy old : Proxy) (m : Model.t) :
  (forall p m0, proxyMap (onRegister p m0) = proxyMap m0) ->
  proxyMap m !! getProxyName proxy = Some old ->
  let proxy' := initializeNotifier (multitonKey m) proxy in
  let m' := (registerProxy onRegister proxy m).1 in
  let trace := (registerProxy onRegister proxy m).2 in
  trace = [OnRegister proxy']
  /\ (forall q, OnRemove q ∉ trace)
  /\ proxyMap m' !! getProxyName proxy = Some proxy'
  /\ (forall name, name <> getProxyName proxy ->
        proxyMap m' !! name = proxyMap m !! name)
  /\ dom (proxyMap m') = dom (proxyMap m).
Proof.
  intros Hhook Hold proxy' m' trace.
  subst m' trace. rewrite registerProxy_trace, registerProxy_state.
  rewrite Hhook. cbn [proxyMap]. fold proxy'.
  split; [done|]. split.
  { intros q Hq. apply list_elem_of_singleton in Hq. discriminate. }
  split; [apply lookup_insert_eq|]. split.
  { intros name Hne. by rewrite lookup_insert_ne. }
  apply set_eq. intros name. rewrite !elem_of_dom.
  destruct (decide (name = getProxyName proxy)) as [->|Hne].
  - rewrite lookup_insert_eq, Hold. split; eauto.
  - by rewrite lookup_insert_ne.
Qed.

End ModelFacts.

Import Scenario.

Lemma registerProxy_overwrites_witness :
  Model.proxyMap
    (Model.registerProxy Model.Proxy_onRegister score_new model_with_score).1
    !! "score"
  = Some (Model.mkProxy 2 "score" (KStr "core")).
Proof.
  refine (proj1 (proj2 (proj2
    (registerProxy_overwrites_without_onRemove Model.Proxy_onRegister
       score_new (Model.mkProxy 1 "score" (KStr "core")) model_with_score
       _ _)))).
  - reflexivity.
  - vm_compute. reflexivity.
Defined.

(** ** The multiton instance maps *)

Section MultitonFacts.

Import Multiton.

Lemma Model_getInstance_facades (key : JsKey) (st : Multiton.t) :
  Facade_instanceMap (Model_getInstance key st).1 = Facade_instanceMap st.
Proof.
  unfold Model_getInstance, Model_new. cbn.
  destruct (bool_decide (is_Some (Model_instanceMap st !! key))); reflexivity.
Qed.

Lemma Model_getInstance_registered (key : JsKey) (st : Multiton.t) :
  is_Some (Model_instanceMap (Model_getInstance key st).1 !! key).
Proof.
  unfold Model_getInstance, Model_new. cbn.
  case_bool_decide as H; cbn; [done|].
  rewrite lookup_insert_eq. eauto.
Qed.

Lemma View_getInstance_facades (key : JsKey) (st : Multiton.t) :
  Facade_instanceMap (View_getInstance key st).1 = Facade_instanceMap st.
Proof.
  unfold View_getInstance, View_new. cbn.
  destruct (bool_decide (is_Some (View_instanceMap st !! key))); reflexivity.
Qed.

Lemma View_getInstance_registered (key : JsKey) (st : Multiton.t) :
  is_Some (View_instanceMap (View_getInstance key st).1 !! key).
Proof.
  unfold View_getInstance, View_new. cbn.
  case_bool_decide as H; cbn; [done|].
  rewrite lookup_insert_eq. eauto.
Qed.

Lemma View_getInstance_controllers (key : JsKey) (st : Multiton.t) :
  Controller_instanceMap (View_getInstance key st).1 = Controller_instanceMap st.
Proof.
  unfold View_getInstance, View_new. cbn.
  destruct (bool_decide (is_Some (View_instanceMap st !! key))); reflexivity.
Qed.

Lemma Controller_getInstance_facades (key : JsKey) (st : Multiton.t) :
  Facade_instanceMap (Controller_getInstance key st).1 = Facade_instanceMap st.
Proof.
  unfold Controller_getInstance, Controller_new.
  case_bool_decide as H; cbn [negb fst]; [done|].
  cbn [Facade_instanceMap]. by rewrite View_getInstance_facades.
Qed.

Lemma Controller_getInstance_registered (key : JsKey) (st : Multiton.t) :
  is_Some (Controller_instanceMap (Controller_getInstance key st).1 !! key).
Proof.
  unfold Controller_getInstance, Controller_new.
  case_bool_decide as H; cbn [negb fst]; [done|].
  cbn [Controller_instanceMap]. rewrite lookup_insert_eq. eauto.
Qed.

Lemma removeCore_without_facade (key : JsKey) (st : Multiton.t) :
  Facade_instanceMap st !! key = None -> removeCore key st = st.
Proof.
  intros H. unfold removeCore. rewrite H.
  rewrite bool_decide_eq_false_2; [done|]. by intros [? ?].
Qed.

(** C10. When no [Facade] is registered under a key, [removeCore] gives
    the static maps back as they are. In particular a [Model], a [View]
    or a [Controller] obtained for that key through its own [getInstance]
    is still in its instance map afterwards. *)
Theorem removeCore_unknown_key_changes_nothing (key : JsKey) (st : Multiton.t) :
  Facade_instanceMap st !! key = None ->
  removeCore key st = st
  /\ (let st' := (Model_getInstance key st).1 in
      removeCore key st' = st'
      /\ is_Some (Model_instanceMap (removeCore key st') !! key))
  /\ (let st' := (View_getInstance key st).1 in
      removeCore key st' = st'
      /\ is_Some (View_instanceMap (removeCore key st') !! key))
  /\ (let st' := (Controller_getInstance key st).1 in
      removeCore key st' = st'
      /\ is_Some (Controller_instanceMap (removeCore key st') !! key)).
Proof.
  intros Hnone. split; [by apply removeCore_without_facade|].
  split; [|split]; cbn zeta.
  - assert (removeCore key (Model_getInstance key st).1
            = (Model_getInstance key st).1) as Heq.
    { apply removeCore_without_facade. by rewrite Model_getInstance_facades. }
    split; [exact Heq|]. rewrite Heq. apply Model_getInstance_registered.
  - assert (removeCore key (View_getInstance key st).1
            = (View_getInstance key st).1) as Heq.
    { apply removeCore_without_facade. by rewrite View_getInstance_facades. }
    split; [exact Heq|]. rewrite Heq. apply View_getInstance_registered.
  - assert (removeCore key (Controller_getInstance key st).1
            = (Controller_getInstance key st).1) as Heq.
    { apply removeCore_without_facade. by rewrite Controller_getInstance_facades. }
    split; [exact Heq|]. rewrite Heq. apply Controller_getInstance_registered.
Qed.

(** A key that is [null] makes the getter throw: the guard is there. *)
Lemma facade_null_key_throws (this : Notifier) (st : Multiton.t) :
  facade (initializeNotifier KNull this) st = (st, inl Notifier_MULTITON_MSG).
Proof. reflexivity. Qed.

Lemma Facade_getInstance_registered (key : JsKey) (st : Multiton.t) :
  exists f, (Facade_getInstance key st).2 = Some f
            /\ Facade_instanceMap (Facade_getInstance key st).1 !! key = Some f.
Proof.
  unfold Facade_getInstance, Facade_new.
  case_bool_decide as H; cbn [negb fst snd].
  - destruct H as [f Hf]. exists f. by rewrite Hf.
  - cbn [Facade_instanceMap]. rewrite lookup_insert_eq. eauto.
Qed.

(** C3. On a notifier whose key was never bound the getter [facade] does
    not throw: the unassigned field is [undefined], the guard compares
    with [null], and [Facade.getInstance(undefined)] answers with a
    facade, which it registers under the key [undefined]. *)
Theorem facade_of_unbound_notifier_returns_a_facade (st : Multiton.t) :
  exists st' f,
    facade Notifier_new st = (st', inr (Some f))
    /\ Facade_instanceMap st' !! KUndefined = Some f.
Proof.
  destruct (Facade_getInstance_registered KUndefined st) as (f & Hf & Hreg).
  exists (Facade_getInstance KUndefined st).1, f.
  split; [|exact Hreg].
  unfold facade. cbn [Notifier_new Notifier_multitonKey strict_eq_null].
  destruct (Facade_getInstance KUndefined st) as [st' o]. cbn in Hf. by subst o.
Qed.

End MultitonFacts.

Lemma removeCore_unknown_key_witness :
  Multiton.removeCore (KStr "game") (Multiton.Model_getInstance (KStr "game") Multiton.empty).1
  = (Multiton.Model_getInstance (KStr "game") Multiton.empty).1.
Proof.
  refine (proj1 (proj1 (proj2
    (removeCore_unknown_key_changes_nothing (KStr "game") Multiton.empty _)))).
  reflexivity.
Defined.

(** ** View *)

Section ViewFacts.

Import View.

Variable callback : FunctionId -> ObjectId -> Notification -> Call View.t.
Variable onRegister : Mediator -> View.t -> View.t.
Variable onRemove : Mediator -> View.t -> View.t.

(** *** Delivery *)

Lemma notify_each_trace (observers : list Observer) (n : Notification) (v : View.t) :
  (notify_each callback observers n v).1.2
  = (fun o => Invoked o n) <$> observers.
Proof.
  revert v. induction observers as [|o rest IH]; intros v; [done|].
  cbn [notify_each]. destruct (notifyObserver callback o n v) as [v1 p].
  specialize (IH v1). destruct (notify_each callback rest n v1) as [[v2 tr] ps].
  cbn in *. by rewrite IH.
Qed.

Lemma notify_each_floating (observers : list Observer) (n : Notification) (v : View.t) :
  length (notify_each callback observers n v).2 = length observers.
Proof.
  revert v. induction observers as [|o rest IH]; intros v; [done|].
  cbn [notify_each]. destruct (notifyObserver callback o n v) as [v1 p].
  specialize (IH v1). destruct (notify_each callback rest n v1) as [[v2 tr] ps].
  cbn in *. by rewrite IH.
Qed.

Lemma invoked_Invoked (observers : list Observer) (n : Notification) :
  invoked ((fun o => Invoked o n) <$> observers) = observers.
Proof.
  induction observers as [|o rest IH]; [done|].
  cbn. unfold invoked in IH. by rewrite IH.
Qed.

Lemma await_each_invoked (observers : list Observer) (n : Notification) (v : View.t) :
  invoked (await_each callback observers n v).1.2 `prefix_of` observers
  /\ ((await_each callback observers n v).2 = Fulfilled ->
      invoked (await_each callback observers n v).1.2 = observers).
Proof.
  revert v. induction observers as [|o rest IH]; intros v.
  { split; [apply prefix_nil | done]. }
  cbn [await_each]. destruct (notifyObserver callback o n v) as [v1 p].
  destruct (await p v1) as [v2 r]. destruct r as [|e].
  - specialize (IH v2).
    destruct (await_each callback rest n v2) as [[v3 tr] r'].
    cbn in *. destruct IH as [IH1 IH2]. split.
    + by apply prefix_cons.
    + intros Hr. by rewrite (IH2 Hr).
  - cbn. split; [|done]. apply prefix_cons, prefix_nil.
Qed.

(** C4. One call of [notifyObservers] calls the observers that are
    registered under the name of the notification when the call starts,
    each once and in the order of the array, whatever the callbacks do to
    the View meanwhile (they are arbitrary functions of its state, so they
    may register and remove observers of that very name). This is so for
    the loop of core/View.ts; with the awaiting loop of the bundle the
    observers called are a prefix of that array, and the whole of it when
    the call is fulfilled. *)
Theorem notifyObservers_delivers_to_the_snapshot (n : Notification) (v : View.t) :
  let snapshot := default [] (observerMap v !! getName n) in
  invoked (notifyObservers callback n v).1.2 = snapshot
  /\ (notifyObservers callback n v).1.2 = (fun o => Invoked o n) <$> snapshot
  /\ invoked (notifyObservers_bundle callback n v).1.2 `prefix_of` snapshot
  /\ ((notifyObservers_bundle callback n v).2 = Fulfilled ->
      invoked (notifyObservers_bundle callback n v).1.2 = snapshot).
Proof.
  unfold notifyObservers, notifyObservers_bundle.
  destruct (observerMap v !! getName n) as [observers|]; cbn [default].
  - rewrite notify_each_trace, invoked_Invoked.
    split; [done|]. split; [done|]. apply await_each_invoked.
  - cbn. split; [done|]. split; [done|]. split; [apply prefix_nil | done].
Qed.

(** *** The observer map keeps no empty array *)

Lemma registerObserver_nonempty (name : string) (o : Observer) (v : View.t) :
  observer_lists_nonempty v -> observer_lists_nonempty (registerObserver name o v).
Proof.
  intros Hv name' observers. unfold registerObserver.
  destruct (observerMap v !! name) as [l|] eqn:Hl; cbn;
    (destruct (decide (name = name')) as [->|Hne];
     [rewrite lookup_insert_eq | rewrite lookup_insert_ne by done; apply Hv]).
  - intros [= <-]. by destruct l.
  - intros [= <-]. done.
Qed.

Lemma removeObserver_nonempty (name : string) (ctx : ObjectId) (v : View.t) :
  observer_lists_nonempty v -> observer_lists_nonempty (removeObserver name ctx v).
Proof.
  intros Hv name' observers. unfold removeObserver.
  destruct (observerMap v !! name) as [l|] eqn:Hl; [|apply Hv].
  case_bool_decide as Hlen; cbn.
  - destruct (decide (name = name')) as [->|Hne].
    + by rewrite lookup_delete_eq.
    + rewrite lookup_delete_ne by done. apply Hv.
  - destruct (decide (name = name')) as [->|Hne].
    + rewrite lookup_insert_eq. intros [= <-] Hnil. by rewrite Hnil in Hlen.
    + rewrite lookup_insert_ne by done. apply Hv.
Qed.

Lemma registerObserver_each_nonempty (interests : list string) (o : Observer)
  (v : View.t) :
  observer_lists_nonempty v ->
  observer_lists_nonempty
    (foldl (fun acc interest => registerObserver interest o acc) v interests).
Proof.
  revert v. induction interests as [|i rest IH]; intros v Hv; [done|].
  cbn. by apply IH, registerObserver_nonempty.
Qed.

Lemma removeObserver_each_nonempty (interests : list string) (ctx : ObjectId)
  (v : View.t) :
  observer_lists_nonempty v ->
  observer_lists_nonempty
    (foldl (fun acc interest => removeObserver interest ctx acc) v interests).
Proof.
  revert v. induction interests as [|i rest IH]; intros v Hv; [done|].
  cbn. by apply IH, removeObserver_nonempty.
Qed.

Lemma set_mediatorMap_nonempty f (v : View.t) :
  observer_lists_nonempty v -> observer_lists_nonempty (set_mediatorMap f v).
Proof. intros Hv. exact Hv. Qed.

Lemma await_preserves {W} (P : W -> Prop) (p : Task W) (w : W) :
  task_preserves P p -> P w -> P (await p w).1.
Proof.
  revert w. induction p as [r|f k IH]; intros w Hp Hw; [done|].
  cbn in *. destruct (Hp w Hw) as [Hf Hk]. by apply IH.
Qed.

Section Encapsulated.

Hypothesis user_code : encapsulated callback onRegister onRemove.

Lemma notifyObserver_nonempty (o : Observer) (n : Notification) (v : View.t) :
  observer_lists_nonempty v ->
  observer_lists_nonempty (notifyObserver callback o n v).1
  /\ task_preserves observer_lists_nonempty (notifyObserver callback o n v).2.
Proof using user_code.
  intros Hv. unfold notifyObserver.
  destruct (getNotifyMethod o) as [f|]; [|done].
  destruct user_code as (Hcb & _ & _).
  specialize (Hcb f (getNotifyContext o) n v Hv).
  by destruct (callback f (getNotifyContext o) n v) as [v' r].
Qed.

Lemma notify_each_nonempty (observers : list Observer) (n : Notification)
  (v : View.t) :
  observer_lists_nonempty v ->
  observer_lists_nonempty (notify_each callback observers n v).1.1.
Proof using user_code.
  revert v. induction observers as [|o rest IH]; intros v Hv; [done|].
  cbn [notify_each].
  destruct (notifyObserver_nonempty o n v Hv) as [H1 _].
  destruct (notifyObserver callback o n v) as [v1 p].
  specialize (IH v1 H1). by destruct (notify_each callback rest n v1) as [[v2 tr] ps].
Qed.

Lemma await_each_nonempty (observers : list Observer) (n : Notification)
  (v : View.t) :
  observer_lists_nonempty v ->
  observer_lists_nonempty (await_each callback observers n v).1.1.
Proof using user_code.
  revert v. induction observers as [|o rest IH]; intros v Hv; [done|].
  cbn [await_each].
  destruct (notifyObserver_nonempty o n v Hv) as [H1 H2].
  destruct (notifyObserver callback o n v) as [v1 p]. cbn in H1, H2.
  pose proof (await_preserves _ p v1 H2 H1) as H3.
  destruct (await p v1) as [v2 r]. cbn in H3. destruct r as [|e]; [|done].
  specialize (IH v2 H3). by destruct (await_each callback rest n v2) as [[v3 tr] r'].
Qed.

Lemma notify_each_floating_nonempty (observers : list Observer) (n : Notification)
  (v : View.t) :
  observer_lists_nonempty v ->
  Forall (task_preserves observer_lists_nonempty)
    (notify_each callback observers n v).2.
Proof using user_code.
  revert v. induction observers as [|o rest IH]; intros v Hv; [constructor|].
  cbn [notify_each].
  destruct (notifyObserver_nonempty o n v Hv) as [H1 H2].
  destruct (notifyObserver callback o n v) as [v1 p].
  specialize (IH v1 H1). destruct (notify_each callback rest n v1) as [[v2 tr] ps].
  by constructor.
Qed.

Lemma notifyObservers_floating_nonempty (n : Notification) (v : View.t) :
  observer_lists_nonempty v ->
  Forall (task_preserves observer_lists_nonempty) (notifyObservers callback n v).2.
Proof using user_code.
  intros Hv. unfold notifyObservers.
  destruct (observerMap v !! getName n);
    [by apply notify_each_floating_nonempty | constructor].
Qed.

Lemma resume_nonempty (p : Task View.t) (v : View.t) :
  task_preserves observer_lists_nonempty p ->
  observer_lists_nonempty v ->
  observer_lists_nonempty (resume p v).1
  /\ task_preserves observer_lists_nonempty (resume p v).2.
Proof. destruct p as [r|f k]; cbn; [done|]. intros Hp Hv. by apply Hp. Qed.

Lemma notifyObservers_nonempty (n : Notification) (v : View.t) :
  observer_lists_nonempty v ->
  observer_lists_nonempty (notifyObservers callback n v).1.1.
Proof using user_code.
  intros Hv. unfold notifyObservers.
  destruct (observerMap v !! getName n); [by apply notify_each_nonempty | done].
Qed.

Lemma notifyObservers_bundle_nonempty (n : Notification) (v : View.t) :
  observer_lists_nonempty v ->
  observer_lists_nonempty (notifyObservers_bundle callback n v).1.1.
Proof using user_code.
  intros Hv. unfold notifyObservers_bundle.
  destruct (observerMap v !! getName n); [by apply await_each_nonempty | done].
Qed.

Lemma registerMediator_nonempty (m : Mediator) (v : View.t) :
  observer_lists_nonempty v ->
  observer_lists_nonempty (registerMediator onRegister m v).1.
Proof using user_code.
  intros Hv. unfold registerMediator.
  case_bool_decide; [done|]. cbn [fst].
  destruct user_code as (_ & Hreg & _). apply Hreg.
  case_bool_decide; [|by apply set_mediatorMap_nonempty].
  by apply registerObserver_each_nonempty, set_mediatorMap_nonempty.
Qed.

Lemma removeMediator_nonempty (name : string) (v : View.t) :
  observer_lists_nonempty v ->
  observer_lists_nonempty (removeMediator onRemove name v).1.1.
Proof using user_code.
  intros Hv. unfold removeMediator.
  destruct (mediatorMap v !! name) as [m|]; [|done]. cbn [fst].
  destruct user_code as (_ & _ & Hrem). apply Hrem.
  by apply set_mediatorMap_nonempty, removeObserver_each_nonempty.
Qed.

End Encapsulated.

(** C5. In every state a View reaches, each name of the observer map has
    a non-empty observer array: the empty View has no name at all, and
    [registerObserver], [removeObserver], [registerMediator],
    [removeMediator] and [notifyObservers] (of core/View.ts and of the
    bundle) keep it so, as do the later turns of the promises that
    [notifyObservers] has left pending; [removeObserver] deletes the name
    whose array it has emptied. User code is any code that reaches the
    map through these methods only. *)
Theorem observer_map_has_no_empty_list (v : View.t) (floating : list (Task View.t)) :
  encapsulated callback onRegister onRemove ->
  reachable callback onRegister onRemove v floating ->
  observer_lists_nonempty v
  /\ (forall name ctx,
        observerMap (removeObserver name ctx v) !! name <> Some []).
Proof.
  intros Huser Hreach.
  assert (observer_lists_nonempty v
          /\ Forall (task_preserves observer_lists_nonempty) floating)
    as [Hv _].
  { induction Hreach as [key|name o v fl _ [IH1 IH2]|name ctx v fl _ [IH1 IH2]
                         |m v fl _ [IH1 IH2]|name v fl _ [IH1 IH2]
                         |n v fl _ [IH1 IH2]|n v fl _ [IH1 IH2]
                         |i p v fl _ [IH1 IH2] Hp].
    - split; [|constructor]. intros name observers. cbn. by rewrite lookup_empty.
    - split; [by apply registerObserver_nonempty | done].
    - split; [by apply removeObserver_nonempty | done].
    - split; [by apply registerMediator_nonempty | done].
    - split; [by apply removeMediator_nonempty | done].
    - split; [by apply notifyObservers_nonempty|].
      apply Forall_app. split; [done | by apply notifyObservers_floating_nonempty].
    - split; [by apply notifyObservers_bundle_nonempty | done].
    - assert (task_preserves observer_lists_nonempty p) as Htask.
      { eapply Forall_lookup_1; eauto. }
      destruct (resume_nonempty p v Htask IH1) as [H1 H2].
      split; [done|]. by apply Forall_insert. }
  split; [exact Hv|].
  intros name ctx Hempty.
  by apply (removeObserver_nonempty name ctx v Hv name []).
Qed.

Lemma removeObserver_last_deletes_name (name : string) (o : Observer) (v : View.t) :
  observerMap v !! name = Some [o] ->
  observerMap (removeObserver name (getNotifyContext o) v) !! name = None.
Proof.
  intros Hl. unfold removeObserver. rewrite Hl.
  cbn [length removeObserver_scan]. change ([o] !! 0) with (Some o).
  unfold compareNotifyContext.
  rewrite (bool_decide_eq_true_2 (getNotifyContext o = getNotifyContext o)) by done.
  change (delete 0 [o]) with (@nil Observer).
  rewrite bool_decide_eq_true_2 by done.
  cbn. apply lookup_delete_eq.
Qed.

(** *** What [removeObserver] removes *)

Lemma removeObserver_scan_none (i : nat) (ctx : ObjectId) (l : list Observer) :
  Forall (fun o => compareNotifyContext o ctx = false) l ->
  removeObserver_scan i ctx l = l.
Proof.
  intros Hall. induction i as [|i IH]; [done|].
  cbn [removeObserver_scan]. destruct (l !! i) as [o|] eqn:Ho; [|done].
  by rewrite (Forall_lookup_1 _ _ _ _ Hall Ho).
Qed.

Lemma removeObserver_scan_last (i : nat) (ctx : ObjectId)
  (l1 l2 : list Observer) (o : Observer) :
  compareNotifyContext o ctx = true ->
  Forall (fun o' => compareNotifyContext o' ctx = false) l2 ->
  length l1 < i <= length (l1 ++ o :: l2) ->
  removeObserver_scan i ctx (l1 ++ o :: l2) = l1 ++ l2.
Proof.
  intros Ho Hl2. induction i as [|i IH]; intros Hi; [lia|].
  cbn [removeObserver_scan].
  destruct (decide (i = length l1)) as [->|Hne].
  - rewrite list_lookup_middle by done. rewrite Ho.
    by rewrite delete_middle.
  - rewrite length_app in Hi. cbn [length] in Hi.
    destruct ((l1 ++ o :: l2) !! i) as [o'|] eqn:Ho'.
    + rewrite lookup_app_r in Ho' by lia.
      destruct (i - length l1) as [|j] eqn:Hj; [lia|]. cbn in Ho'.
      rewrite (Forall_lookup_1 _ _ _ _ Hl2 Ho').
      apply IH. rewrite length_app. cbn [length]. lia.
    + apply IH. rewrite length_app. cbn [length]. lia.
Qed.

Lemma last_match_split (ctx : ObjectId) (l : list Observer) :
  Forall (fun o => compareNotifyContext o ctx = false) l
  \/ exists l1 o l2,
       l = l1 ++ o :: l2
       /\ compareNotifyContext o ctx = true
       /\ Forall (fun o' => compareNotifyContext o' ctx = false) l2.
Proof.
  induction l as [|x l IH] using rev_ind; [left; constructor|].
  destruct (compareNotifyContext x ctx) eqn:Hx.
  - right. exists l, x, []. by repeat split.
  - destruct IH as [IH|(l1 & o & l2 & -> & Ho & Hl2)].
    + left. apply Forall_app. split; [done|]. by constructor.
    + right. exists l1, o, (l2 ++ [x]). split; [by rewrite <- app_assoc|].
      split; [done|]. apply Forall_app. split; [done|]. by constructor.
Qed.

(** [removeObserver] takes the last observer of the context out of the
    array, and at most that one. *)
Lemma removeObserver_scan_spec (ctx : ObjectId) (l : list Observer) :
  (Forall (fun o => compareNotifyContext o ctx = false) l
   /\ removeObserver_scan (length l) ctx l = l)
  \/ exists l1 o l2,
       l = l1 ++ o :: l2
       /\ getNotifyContext o = ctx
       /\ Forall (fun o' => getNotifyContext o' <> ctx) l2
       /\ removeObserver_scan (length l) ctx l = l1 ++ l2.
Proof.
  destruct (last_match_split ctx l) as [Hnone|(l1 & o & l2 & -> & Ho & Hl2)].
  - left. split; [done|]. by apply removeObserver_scan_none.
  - right. exists l1, o, l2. split; [done|].
    unfold compareNotifyContext in Ho. apply bool_decide_eq_true_1 in Ho.
    split; [done|]. split.
    + eapply Forall_impl; [exact Hl2|]. cbn. intros o' Ho' Heq.
      unfold compareNotifyContext in Ho'.
      apply bool_decide_eq_false_1 in Ho'. by apply Ho'.
    + apply removeObserver_scan_last; [|done|].
      * unfold compareNotifyContext. by apply bool_decide_eq_true_2.
      * rewrite length_app. cbn [length]. lia.
Qed.

Lemma registerObserver_other_name (name name' : string) (o : Observer) (v : View.t) :
  name <> name' ->
  observerMap (registerObserver name o v) !! name' = observerMap v !! name'.
Proof.
  intros Hne. unfold registerObserver.
  destruct (observerMap v !! name); cbn; by rewrite lookup_insert_ne.
Qed.

Lemma removeObserver_other_name (name name' : string) (ctx : ObjectId) (v : View.t) :
  name <> name' ->
  observerMap (removeObserver name ctx v) !! name' = observerMap v !! name'.
Proof.
  intros Hne. unfold removeObserver.
  destruct (observerMap v !! name); [|done].
  case_bool_decide; cbn; [by rewrite lookup_delete_ne | by rewrite lookup_insert_ne].
Qed.

Lemma removeObserver_same_name (name : string) (ctx : ObjectId) (v : View.t) :
  default [] (observerMap (removeObserver name ctx v) !! name)
  = removeObserver_scan (length (default [] (observerMap v !! name))) ctx
      (default [] (observerMap v !! name)).
Proof.
  unfold removeObserver.
  destruct (observerMap v !! name) as [l|] eqn:Hl; cbn [default from_option id].
  - case_bool_decide as Hlen; cbn.
    + rewrite lookup_delete_eq. cbn.
      by destruct (removeObserver_scan (length l) ctx l).
    + by rewrite lookup_insert_eq.
  - by rewrite Hl.
Qed.

Lemma filter_context_none (id : ObjectId) (l : list Observer) :
  Forall (fun o => getNotifyContext o <> id) l ->
  filter (fun o => getNotifyContext o = id) l = [].
Proof.
  induction 1 as [|o l Ho _ IH]; [done|].
  by rewrite filter_cons_False.
Qed.

(** Of the observers of one context, [removeObserver] for that context
    leaves one less (none if there was none), and [removeObserver] for
    another context leaves them all. *)
Lemma removeObserver_scan_filter (id ctx : ObjectId) (l : list Observer) :
  length (filter (fun o => getNotifyContext o = id)
            (removeObserver_scan (length l) ctx l))
  = if decide (ctx = id)
    then pred (length (filter (fun o => getNotifyContext o = id) l))
    else length (filter (fun o => getNotifyContext o = id) l).
Proof.
  destruct (removeObserver_scan_spec ctx l)
    as [[Hnone ->]|(l1 & o & l2 & -> & Ho & Hl2 & ->)].
  - destruct (decide (ctx = id)) as [->|]; [|done].
    rewrite filter_context_none; [done|].
    eapply Forall_impl; [exact Hnone|]. cbn. intros o Ho.
    unfold compareNotifyContext in Ho. apply bool_decide_eq_false_1 in Ho.
    intros Heq. by apply Ho.
  - rewrite !filter_app, !length_app.
    destruct (decide (ctx = id)) as [<-|Hne].
    + rewrite filter_cons_True by done. cbn [length]. lia.
    + rewrite filter_cons_False by congruence. done.
Qed.

(** *** Order of delivery *)

Lemma registerObserver_appends (name : string) (o : Observer) (v : View.t) :
  observerMap (registerObserver name o v) !! name
  = Some (default [] (observerMap v !! name) ++ [o]).
Proof.
  unfold registerObserver.
  destruct (observerMap v !! name) as [l|]; cbn; by rewrite lookup_insert_eq.
Qed.

(** Observers are called in the order of their registration, by the
    loop of core/View.ts as by the loop of the bundle. *)
Lemma notifyObservers_registration_order (n : Notification) (a b : Observer)
  (v : View.t) :
  let v' := registerObserver (getName n) b (registerObserver (getName n) a v) in
  (notifyObservers callback n v').1.2
  = ((fun o => Invoked o n) <$> default [] (observerMap v !! getName n))
      ++ [Invoked a n; Invoked b n].
Proof.
  cbn zeta. unfold notifyObservers.
  rewrite registerObserver_appends, registerObserver_appends. cbn [default].
  rewrite notify_each_trace. unfold id.
  rewrite !fmap_app, <- app_assoc. reflexivity.
Qed.

(** The loop of the bundle starts an observer in the world that the
    completed promise of the one before has left. *)
Lemma await_each_awaits (a : Observer) (rest : list Observer) (n : Notification)
  (v : View.t) :
  let started := notifyObserver callback a n v in
  let completed := await started.2 started.1 in
  completed.2 = Fulfilled ->
  await_each callback (a :: rest) n v
  = let '(v3, tr, r) := await_each callback rest n completed.1 in
    (v3, Invoked a n :: Completed a Fulfilled :: tr, r).
Proof.
  cbn zeta. cbn [await_each].
  destruct (notifyObserver callback a n v) as [v1 p]. cbn [fst snd].
  destruct (await p v1) as [v2 r]. cbn [fst snd]. by intros ->.
Qed.

(** *** Registering a mediator twice *)

(** C6. [registerMediator] of a mediator whose name is taken returns at
    once: the View is the same, no hook is called, the mediator found
    under the name is the one that was there, every observer array is
    what it was, and a notification is delivered as it was before. *)
Theorem registerMediator_of_a_registered_name_is_a_noop
  (original mediator : Mediator) (v : View.t) :
  mediatorMap v !! getMediatorName mediator = Some original ->
  registerMediator onRegister mediator v = (v, [])
  /\ retrieveMediator (getMediatorName mediator)
       (registerMediator onRegister mediator v).1 = Some original
  /\ (forall name,
        observerMap (registerMediator onRegister mediator v).1 !! name
        = observerMap v !! name)
  /\ (forall n,
        notifyObservers callback n (registerMediator onRegister mediator v).1
        = notifyObservers callback n v).
Proof.
  intros Hreg.
  assert (registerMediator onRegister mediator v = (v, [])) as ->.
  { unfold registerMediator. rewrite Hreg.
    by rewrite bool_decide_eq_true_2 by eauto. }
  by repeat split.
Qed.

End ViewFacts.

Import View.

(** C2, on core/View.ts. The second observer is called while the promise
    of the first is still pending: when [notifyObservers] returns both
    have been called, in the order of their registration, the promise of
    the first has not settled (what it does when it is resumed, the
    subscription under ["late"], is still to come), and the second has
    found the world as the first left it at its suspension. *)
Theorem notifyObservers_does_not_await_its_observers :
  let r := notifyObservers callbacks game_over view_with_two_observers in
  r.1.2 = [Invoked o1 game_over; Invoked o2 game_over]
  /\ is_settled <$> r.2 !! 0 = Some false
  /\ observerMap r.1.1 !! "late" = None
  /\ (forall p, r.2 !! 0 = Some p ->
        observerMap (await p r.1.1).1 !! "late" = Some [o3])
  /\ observerMap r.1.1 !! "first was pending" = Some [o2]
  /\ observerMap r.1.1 !! "first had completed" = None.
Proof.
  cbn zeta. repeat split; try (vm_compute; reflexivity).
  intros p Hp. vm_compute in Hp. injection Hp as <-.
  vm_compute. reflexivity.
Qed.

(** The loop of the bundle, on the same observers: the first completes
    before the second is called. *)
Lemma notifyObservers_bundle_awaits_its_observers :
  let r := notifyObservers_bundle callbacks game_over view_with_two_observers in
  r.1.2 = [Invoked o1 game_over; Completed o1 Fulfilled;
           Invoked o2 game_over; Completed o2 Fulfilled]
  /\ r.2 = Fulfilled
  /\ observerMap r.1.1 !! "first had completed" = Some [o2]
  /\ observerMap r.1.1 !! "first was pending" = None.
Proof. vm_compute. done. Qed.

(** While the first observer unsubscribes the second and subscribes a
    third, the notification in flight still goes to the first and the
    second, and not to the third. *)
Lemma notifyObservers_delivers_to_the_snapshot_witness :
  invoked (notifyObservers callbacks game_over view_with_two_observers).1.2
  = [o1; o2]
  /\ observerMap (notifyObservers callbacks game_over view_with_two_observers).1.1
       !! "GAME_OVER" = Some [o1; o3]
  /\ invoked (notifyObservers_bundle callbacks game_over view_with_two_observers).1.2
     = [o1; o2].
Proof.
  pose proof (notifyObservers_delivers_to_the_snapshot callbacks game_over
                view_with_two_observers) as (H1 & _ & _ & H2).
  split; [exact H1|]. split; [vm_compute; reflexivity|].
  apply H2. vm_compute. reflexivity.
Defined.

Lemma callbacks_encapsulated : encapsulated callbacks no_hook no_hook.
Proof.
  split; [|by split].
  intros f ctx n v Hv. unfold callbacks.
  destruct f as [|[|[|f]]]; cbn [fst snd as_task task_preserves]; try done.
  - split.
    + by apply registerObserver_nonempty, removeObserver_nonempty.
    + intros w Hw. split; [by apply registerObserver_nonempty | done].
  - split; [|done].
    destruct (observerMap v !! "late"); by apply registerObserver_nonempty.
Qed.

Lemma observer_map_has_no_empty_list_witness :
  observer_lists_nonempty
    (View.removeObserver "GAME_OVER" 101
       (resume (Pending (View.registerObserver "late" o3)
                        (fun _ => Settled Fulfilled))
          (notifyObservers callbacks game_over view_with_two_observers).1.1).1).
Proof.
  refine (proj1 (observer_map_has_no_empty_list callbacks no_hook no_hook _ _
                   callbacks_encapsulated _)).
  apply reach_removeObserver.
  apply (reach_resume callbacks no_hook no_hook 0 _ _
           ([] ++ (notifyObservers callbacks game_over view_with_two_observers).2)).
  - apply reach_notifyObservers.
    apply reach_registerObserver, reach_registerObserver, reach_new.
  - reflexivity.
Defined.

(** A second mediator named ["M"] changes nothing: ["GAME_OVER"] is
    subscribed once, by the first mediator, and ["PAUSE"], an interest of
    the second only, is not subscribed. *)
Lemma registerMediator_twice_witness :
  (registerMediator no_hook second_mediator view_with_mediator).1
  = view_with_mediator
  /\ observerMap view_with_mediator !! "GAME_OVER"
     = Some [mkObserver (Some 7) 201]
  /\ observerMap view_with_mediator !! "PAUSE" = None.
Proof.
  split.
  - refine (f_equal fst (proj1
      (registerMediator_of_a_registered_name_is_a_noop callbacks no_hook
         (initializeNotifier (KStr "core") first_mediator) second_mediator
         view_with_mediator _))).
    vm_compute. reflexivity.
  - vm_compute. done.
Defined.

(** ** Controller *)

Section ControllerFacts.

Import Controller.

Variable executeCommand_fn : FunctionId.
Variable construct : CommandClass -> Controller.t -> Controller.t * option Error.
Variable command_execute : CommandClass -> JsKey -> Notification -> Call Controller.t.

Lemma registerCommand_commandMap (name : string) (commandClass : CommandClass)
  (c : Controller.t) :
  commandMap (registerCommand executeCommand_fn name commandClass c) !! name
  = Some commandClass.
Proof.
  unfold registerCommand. destruct (negb (hasCommand name c)); cbn;
    apply lookup_insert_eq.
Qed.

Lemma registerCommand_hasCommand (name : string) (commandClass : CommandClass)
  (c : Controller.t) :
  hasCommand name (registerCommand executeCommand_fn name commandClass c) = true.
Proof.
  unfold hasCommand. rewrite registerCommand_commandMap.
  apply bool_decide_eq_true_2. eauto.
Qed.

Lemma registerCommand_controllerId (name : string) (commandClass : CommandClass)
  (c : Controller.t) :
  controllerId (registerCommand executeCommand_fn name commandClass c)
  = controllerId c.
Proof. unfold registerCommand. by destruct (negb (hasCommand name c)). Qed.

Lemma registerCommand_view (name : string) (commandClass : CommandClass)
  (c : Controller.t) :
  is_Some (view c) ->
  is_Some (view (registerCommand executeCommand_fn name commandClass c)).
Proof.
  intros [v Hv]. unfold registerCommand.
  destruct (negb (hasCommand name c)); cbn; rewrite Hv; cbn; eauto.
Qed.

(** The first registration for a name subscribes the controller; a
    registration for a name that has a command subscribes nothing. *)
Lemma registerCommand_subscriptions (name : string) (commandClass : CommandClass)
  (c : Controller.t) :
  is_Some (view c) ->
  subscriptions name (registerCommand executeCommand_fn name commandClass c)
  = subscriptions name c
    ++ (if hasCommand name c then []
        else [mkObserver (Some executeCommand_fn) (controllerId c)]).
Proof.
  intros [v Hv]. unfold registerCommand, subscriptions.
  destruct (hasCommand name c); cbn [negb].
  - cbn. rewrite Hv. by rewrite app_nil_r.
  - cbn. rewrite Hv. cbn.
    rewrite registerObserver_appends. unfold default, from_option, id.
    rewrite filter_app. f_equal.
    rewrite filter_cons_True by done. reflexivity.
Qed.

Lemma registerCommand_other_name (name name' : string) (commandClass : CommandClass)
  (c : Controller.t) :
  name <> name' ->
  subscriptions name' (registerCommand executeCommand_fn name commandClass c)
  = subscriptions name' c
  /\ hasCommand name' (registerCommand executeCommand_fn name commandClass c)
     = hasCommand name' c.
Proof.
  intros Hne. unfold registerCommand, subscriptions, hasCommand.
  destruct (negb _); cbn; rewrite lookup_insert_ne by done; [|done].
  destruct (view c) as [v|]; cbn; [|done].
  by rewrite registerObserver_other_name.
Qed.

Lemma removeCommand_other_name (name name' : string) (c : Controller.t) :
  name <> name' ->
  subscriptions name' (removeCommand name c) = subscriptions name' c
  /\ hasCommand name' (removeCommand name c) = hasCommand name' c.
Proof.
  intros Hne. unfold removeCommand. destruct (hasCommand name c); [|done].
  unfold subscriptions, hasCommand. cbn. rewrite lookup_delete_ne by done.
  destruct (view c) as [v|]; cbn; [|done].
  by rewrite removeObserver_other_name.
Qed.

Lemma removeCommand_same_name (name : string) (c : Controller.t) :
  length (subscriptions name (removeCommand name c))
  = (if hasCommand name c then pred (length (subscriptions name c))
     else length (subscriptions name c))
  /\ hasCommand name (removeCommand name c) = false.
Proof.
  unfold removeCommand. destruct (hasCommand name c) eqn:Hhas; [|done].
  split.
  - unfold subscriptions. cbn. destruct (view c) as [v|]; cbn; [|done].
    rewrite removeObserver_same_name, removeObserver_scan_filter.
    by rewrite decide_True.
  - unfold hasCommand. cbn. rewrite lookup_delete_eq.
    apply bool_decide_eq_false_2. by intros [? ?].
Qed.

(** A controller built on an empty view, whose context no other client
    of the view uses, is subscribed once under each name it has a command
    for: the precondition of the theorem below. *)
Lemma reachable_subscribed_once (c : Controller.t) :
  Controller.reachable executeCommand_fn c ->
  is_Some (view c) /\ subscribed_once c.
Proof.
  induction 1 as [id key|name commandClass c _ [IHv IH]|name c _ [IHv IH]
                  |name o c _ [IHv IH] Ho|name ctx c _ [IHv IH] Hctx].
  - split; [by eexists|]. intros name. unfold subscriptions, hasCommand. cbn.
    rewrite !lookup_empty.
    rewrite bool_decide_eq_false_2 by (by intros [? ?]). done.
  - split; [by apply registerCommand_view|]. intros name'.
    destruct (decide (name = name')) as [<-|Hne].
    + rewrite registerCommand_subscriptions by done.
      rewrite registerCommand_hasCommand, length_app, (IH name).
      by destruct (hasCommand name c).
    + destruct (registerCommand_other_name name name' commandClass c Hne)
        as [-> ->]. apply IH.
  - split.
    { unfold removeCommand. destruct (hasCommand name c); [|done].
      destruct IHv as [v Hv]. cbn. rewrite Hv. by eexists. }
    intros name'. destruct (decide (name = name')) as [<-|Hne].
    + destruct (removeCommand_same_name name c) as [-> ->].
      rewrite (IH name). by destruct (hasCommand name c).
    + destruct (removeCommand_other_name name name' c Hne) as [-> ->]. apply IH.
  - split. { destruct IHv as [v Hv]. cbn. rewrite Hv. by eexists. }
    intros name'. specialize (IH name'). revert IH.
    unfold subscriptions, hasCommand. cbn.
    destruct IHv as [v ->]. cbn. intros <-.
    destruct (decide (name = name')) as [<-|Hne].
    + rewrite registerObserver_appends. cbn [from_option]. unfold id.
      rewrite filter_app, length_app.
      rewrite filter_cons_False by done. cbn. lia.
    + by rewrite registerObserver_other_name.
  - split. { destruct IHv as [v Hv]. cbn. rewrite Hv. by eexists. }
    intros name'. specialize (IH name'). revert IH.
    unfold subscriptions, hasCommand. cbn.
    destruct IHv as [v ->]. cbn. intros <-.
    destruct (decide (name = name')) as [<-|Hne].
    + rewrite removeObserver_same_name, removeObserver_scan_filter.
      by rewrite decide_False.
    + by rewrite removeObserver_other_name.
Qed.

(** C7. Registering a command for a name, and then another one for the
    same name, leaves one subscription of the controller under that name
    (given that the controller has its view, and was subscribed there
    once if it had a command for the name and not at all if it had
    none), and the command map holds the second class: [executeCommand]
    for a notification of that name instantiates the second class and,
    when its constructor returns, binds the instance to the key of the
    controller and returns the promise of its [execute]. *)
Theorem registerCommand_twice_subscribes_once_and_runs_the_latest
  (name : string) (first second : CommandClass) (n : Notification)
  (c : Controller.t) :
  is_Some (view c) ->
  length (subscriptions name c) = (if hasCommand name c then 1 else 0) ->
  getName n = name ->
  let c2 := registerCommand executeCommand_fn name second
              (registerCommand executeCommand_fn name first c) in
  length (subscriptions name c2) = 1
  /\ (hasCommand name c = false ->
      subscriptions name c2
      = [mkObserver (Some executeCommand_fn) (controllerId c)])
  /\ commandMap c2 !! name = Some second
  /\ executeCommand construct command_execute n c2
     = match construct second c2 with
       | (c', Some e) => (c', [Instantiated second], Settled (Rejected e))
       | (c', None) =>
           let r := command_execute second (multitonKey c') n c' in
           (r.1, [Instantiated second; Executed second (multitonKey c') n],
            as_task r.2)
       end.
Proof.
  intros Hview Hinv Hname c2.
  assert (subscriptions name c2
          = subscriptions name c
            ++ (if hasCommand name c then []
                else [mkObserver (Some executeCommand_fn) (controllerId c)]))
    as Hsubs.
  { subst c2. rewrite registerCommand_subscriptions
      by by apply registerCommand_view.
    rewrite registerCommand_hasCommand, app_nil_r.
    by apply registerCommand_subscriptions. }
  split; [|split; [|split]].
  - rewrite Hsubs, length_app, Hinv. by destruct (hasCommand name c).
  - intros Hnone. rewrite Hsubs. rewrite Hnone in Hinv |- *.
    by destruct (subscriptions name c).
  - apply registerCommand_commandMap.
  - unfold executeCommand. rewrite Hname.
    subst c2. rewrite registerCommand_commandMap.
    destruct (construct second _) as [c' [e|]]; [done|].
    by destruct (command_execute second (multitonKey c') n c').
Qed.

End ControllerFacts.

Lemma registerCommand_twice_witness :
  Controller.subscriptions "GAME_OVER"
    (Controller.registerCommand 9 "GAME_OVER" 22
       (Controller.registerCommand 9 "GAME_OVER" 11 controller))
  = [mkObserver (Some 9) 300]
  /\ (Controller.executeCommand construct_ok execute_at_once game_over
        (Controller.registerCommand 9 "GAME_OVER" 22
           (Controller.registerCommand 9 "GAME_OVER" 11 controller))).1.2
     = [Controller.Instantiated 22;
        Controller.Executed 22 (KStr "core") game_over].
Proof.
  pose proof (registerCommand_twice_subscribes_once_and_runs_the_latest
                9 construct_ok execute_at_once "GAME_OVER" 11 22 game_over
                controller) as H.
  destruct H as (_ & H2 & _ & H4).
  - vm_compute. eauto.
  - vm_compute. reflexivity.
  - reflexivity.
  - split; [apply H2; vm_compute; reflexivity|].
    rewrite H4. reflexivity.
Defined.

(** ** MacroCommand *)

Section MacroCommandFacts.

Import MacroCommand.

Context {W : Type}.
Variable construct : CommandClass -> W -> W * option Error.
Variable command_execute : CommandClass -> JsKey -> Notification -> Call W.

(** Sub-commands are kept in the order they were added. *)
Lemma addSubCommand_fifo (sequential : bool) (A B : CommandClass) :
  subCommands (addSubCommand B (addSubCommand A (MacroCommand.new sequential)))
  = [A; B].
Proof. reflexivity. Qed.

(** *** Sequential mode *)

Lemma execute_sequential_app (i : nat) (pre post : list CommandClass)
  (key : JsKey) (n : Notification) (w : W) :
  execute_sequential construct command_execute i (pre ++ post) key n w
  = match execute_sequential construct command_execute i pre key n w with
    | (w1, tr1, Fulfilled) =>
        let '(w2, tr2, r2) :=
          execute_sequential construct command_execute (i + length pre) post key n w1 in
        (w2, tr1 ++ tr2, r2)
    | (w1, tr1, Rejected e) => (w1, tr1, Rejected e)
    end.
Proof.
  revert i w. induction pre as [|c pre IH]; intros i w.
  - cbn. rewrite Nat.add_0_r.
    by destruct (execute_sequential construct command_execute i post key n w)
      as [[w2 tr2] r2].
  - cbn [app execute_sequential length].
    destruct (construct c w) as [w1 [e|]]; [done|].
    destruct (command_execute c key n w1) as [w2 [e|p]]; [done|].
    destruct (await p w2) as [w3 [|e]]; [|done].
    rewrite IH. replace (i + S (length pre)) with (S i + length pre) by lia.
    destruct (execute_sequential construct command_execute (S i) pre key n w3)
      as [[w4 tr] [|e]]; [|done].
    by destruct (execute_sequential construct command_execute
                   (S i + length pre) post key n w4) as [[w5 tr2] r2].
Qed.


(** What the relations on the sub-commands' own code make of the loop. *)
Lemma each_fulfilled_execute_sequential (i : nat) (subs : list CommandClass)
  (key : JsKey) (n : Notification) (w w' : W) :
  each_fulfilled construct command_execute key n subs w w' ->
  execute_sequential construct command_execute i subs key n w
  = (w', in_series i subs key n, Fulfilled).
Proof.
  intros H. revert i.
  induction H as [w|c rest w w1 w2 p w3 w' Hnew Hexec Hawait _ IH]; intros i.
  - reflexivity.
  - cbn [execute_sequential in_series].
    rewrite Hnew, Hexec, Hawait, (IH (S i)). reflexivity.
Qed.

Lemma fails_execute_sequential (i : nat) (A : CommandClass)
  (post : list CommandClass) (key : JsKey) (n : Notification)
  (w w' : W) (tr : list Event) (e : Error) :
  fails construct command_execute i A key n w w' tr e ->
  execute_sequential construct command_execute i (A :: post) key n w
  = (w', tr, Rejected e).
Proof.
  intros [w'' tr' e' [w1 e'' Hnew|w1 w2 e'' Hnew Hexec]
         |w1 w2 p w3 e' Hnew Hexec Hawait];
    cbn [execute_sequential].
  - by rewrite Hnew.
  - by rewrite Hnew, Hexec.
  - by rewrite Hnew, Hexec, Hawait.
Qed.

Lemma fails_positions (i : nat) (A : CommandClass) (key : JsKey)
  (n : Notification) (w w' : W) (tr : list Event) (e : Error) :
  fails construct command_execute i A key n w w' tr e ->
  Forall (fun ev => position ev = i) tr.
Proof.
  intros [w'' tr' e' [w1 e'' Hnew|w1 w2 e'' Hnew Hexec]
         |w1 w2 p w3 e' Hnew Hexec Hawait];
    repeat constructor.
Qed.

Lemma in_series_positions (i : nat) (subs : list CommandClass) (key : JsKey)
  (n : Notification) :
  Forall (fun ev => i <= position ev < i + length subs) (in_series i subs key n).
Proof.
  revert i. induction subs as [|c subs IH]; intros i; [by constructor|].
  cbn [in_series length].
  repeat (constructor; [cbn; lia|]).
  eapply Forall_impl; [exact (IH (S i))|]. cbn. intros ev. lia.
Qed.

(** C8. In a sequential macro, let the sub-commands before [A] each be
    fulfilled in turn (none before [A], when [A] is the first) and let
    [A] fail in the world they leave: its constructor throws, its
    [execute] throws, or the promise its [execute] returns is rejected.
    Then the [execute] of the macro is rejected with the error of [A],
    in the world [A] has left: the sub-commands before [A] have run in
    series, each fulfilled before the next was instantiated, the trace
    ends with what [A] did, and no sub-command after [A] is instantiated
    or executed. The hypotheses are on the code of the sub-commands. *)
Theorem sequential_macro_stops_at_the_first_failure
  (schedule : list nat) (n : Notification) (m : MacroCommand.t)
  (pre post : list CommandClass) (A : CommandClass)
  (w w1 w2 : W) (trA : list Event) (e : Error) :
  sequentialExecution m = true ->
  subCommands m = pre ++ A :: post ->
  each_fulfilled construct command_execute (multitonKey m) n pre w w1 ->
  fails construct command_execute (length pre) A (multitonKey m) n w1 w2 trA e ->
  execute construct command_execute schedule n m w
  = (w2, in_series 0 pre (multitonKey m) n ++ trA, Rejected e)
  /\ Forall (fun ev => position ev <= length pre)
       (execute construct command_execute schedule n m w).1.2.
Proof.
  intros Hseq Hsubs Hpre HA.
  assert (execute construct command_execute schedule n m w
          = (w2, in_series 0 pre (multitonKey m) n ++ trA, Rejected e)) as Hrun.
  { unfold execute. rewrite Hseq, Hsubs. cbn [negb].
    rewrite execute_sequential_app.
    rewrite (each_fulfilled_execute_sequential 0 pre _ _ _ _ Hpre). cbn [Nat.add].
    by rewrite (fails_execute_sequential _ _ post _ _ _ _ _ _ HA). }
  split; [exact Hrun|]. rewrite Hrun. cbn [fst snd].
  apply Forall_app. split.
  - eapply Forall_impl; [apply (in_series_positions 0)|]. cbn. lia.
  - eapply Forall_impl; [exact (fails_positions _ _ _ _ _ _ _ _ HA)|]. cbn. lia.
Qed.

End MacroCommandFacts.

Lemma sequential_macro_witness :
  MacroCommand.execute construct_ok logging_execute [] game_over
    (macro_of true [2; 1; 2]) []
  = (["B starts"; "B goes on"; "B ends"; "A starts"; "A fails"],
     [MacroCommand.Instantiated 0 2;
      MacroCommand.Executed 0 2 (KStr "core") game_over;
      MacroCommand.Finished 0 Fulfilled;
      MacroCommand.Instantiated 1 1;
      MacroCommand.Executed 1 1 (KStr "core") game_over;
      MacroCommand.Finished 1 (Rejected "A failed")],
     Rejected "A failed").
Proof.
  refine (proj1 (sequential_macro_stops_at_the_first_failure
            construct_ok logging_execute [] game_over (macro_of true [2; 1; 2])
            [2] [2] 1 [] ["B starts"; "B goes on"; "B ends"]
            ["B starts"; "B goes on"; "B ends"; "A starts"; "A fails"]
            [MacroCommand.Instantiated 1 1;
             MacroCommand.Executed 1 1 (KStr "core") game_over;
             MacroCommand.Finished 1 (Rejected "A failed")]
            "A failed" _ _ _ _)).
  - reflexivity.
  - reflexivity.
  - eapply MacroCommand.each_fulfilled_cons;
      [reflexivity | reflexivity | reflexivity | apply MacroCommand.each_fulfilled_nil].
  - eapply MacroCommand.fails_by_rejecting; reflexivity.
Defined.

Section ParallelFacts.

Import MacroCommand.

Context {W : Type}.
Variable construct : CommandClass -> W -> W * option Error.
Variable command_execute : CommandClass -> JsKey -> Notification -> Call W.

(** *** Parallel mode *)

Lemma start_all_asynchronous (i : nat) (subs : list CommandClass)
  (key : JsKey) (n : Notification) (w : W) :
  Forall (asynchronous construct command_execute) subs ->
  exists w' ps,
    start_all construct command_execute i subs key n w
    = (w', started_in_order i subs key n, inr ps)
    /\ length ps = length subs.
Proof.
  intros Hall. revert i w.
  induction Hall as [|c subs [Hc He] _ IH]; intros i w.
  { by exists w, []. }
  cbn [start_all started_in_order].
  specialize (Hc w). destruct (construct c w) as [w1 o]. cbn in Hc. subst o.
  destruct (He key n w1) as [p Hp].
  destruct (command_execute c key n w1) as [w2 r]. cbn in Hp. subst r.
  destruct (IH (S i) w2) as (w3 & ps & -> & Hlen).
  exists w3, (p :: ps). split; [done|]. cbn. by rewrite Hlen.
Qed.

Lemma elem_of_pending_from (i : nat) (ps : list (Task W)) (x : nat) :
  x ∈ pending_from i ps
  <-> exists j p, x = i + j /\ ps !! j = Some p /\ is_settled p = false.
Proof.
  revert i. induction ps as [|q ps IH]; intros i.
  { cbn. split; [by intros ?%elem_of_nil | by intros (j & p & _ & ? & _)]. }
  cbn [pending_from]. destruct (is_settled q) eqn:Hq.
  - rewrite IH. split.
    + intros (j & p & -> & Hj & Hp). exists (S j), p. split; [lia|done].
    + intros (j & p & -> & Hj & Hp). destruct j as [|j].
      * cbn in Hj. congruence.
      * exists j, p. split; [lia|done].
  - rewrite elem_of_cons, IH. split.
    + intros [->|(j & p & -> & Hj & Hp)].
      * exists 0, q. split; [lia|done].
      * exists (S j), p. split; [lia|done].
    + intros (j & p & -> & Hj & Hp). destruct j as [|j].
      * left. lia.
      * right. exists j, p. split; [lia|done].
Qed.

Lemma finished_is_Finished (i : nat) (p : Task W) :
  Forall is_Finished (finished i p).
Proof. destruct p; cbn; by repeat constructor. Qed.

Lemma finished_from_is_Finished (i : nat) (ps : list (Task W)) :
  Forall is_Finished (finished_from i ps).
Proof.
  revert i. induction ps as [|p ps IH]; intros i; [constructor|].
  cbn. apply Forall_app. split; [apply finished_is_Finished | apply IH].
Qed.

Lemma finished_from_settled (i j : nat) (ps : list (Task W)) (p : Task W) :
  ps !! j = Some p -> is_settled p = true ->
  exists r, Finished (i + j) r ∈ finished_from i ps.
Proof.
  revert i j. induction ps as [|q ps IH]; intros i j Hj Hp; [done|].
  cbn [finished_from]. destruct j as [|j].
  - cbn in Hj. injection Hj as ->. destruct p as [r|]; [|done].
    exists r. rewrite Nat.add_0_r. apply elem_of_app. left. cbn. apply elem_of_cons. by left.
  - destruct (IH (S i) j Hj Hp) as [r Hr]. exists r.
    apply elem_of_app. right. by replace (i + S j) with (S i + j) by lia.
Qed.

(** Draining leaves no promise pending. *)
Lemma drain_settles (i : nat) (ps : list (Task W)) (w : W) :
  Forall is_Finished (drain i ps w).1.2
  /\ (forall j p, ps !! j = Some p -> is_settled p = false ->
        exists r, Finished (i + j) r ∈ (drain i ps w).1.2).
Proof.
  revert i w. induction ps as [|q ps IH]; intros i w.
  { split; [constructor | done]. }
  cbn [drain]. destruct (is_settled q) eqn:Hq.
  - destruct (IH (S i) w) as [IH1 IH2].
    destruct (drain (S i) ps w) as [[w1 tr] rest]. cbn in *.
    split; [done|]. intros [|j] p Hj Hp.
    + cbn in Hj. congruence.
    + destruct (IH2 j p Hj Hp) as [r Hr]. exists r.
      by replace (i + S j) with (S (i + j)) by lia.
  - destruct (await q w) as [w1 r].
    destruct (IH (S i) w1) as [IH1 IH2].
    destruct (drain (S i) ps w1) as [[w2 tr] rest]. cbn in *.
    split; [by constructor|]. intros [|j] p Hj Hp.
    + exists r. rewrite Nat.add_0_r. apply elem_of_cons. by left.
    + destruct (IH2 j p Hj Hp) as [r' Hr]. exists r'.
      apply elem_of_cons. right. by replace (i + S j) with (S (i + j)) by lia.
Qed.

(** Whatever the schedule, every promise that was pending settles. *)
Lemma settle_all_settles (schedule : list nat) (ps : list (Task W)) (w : W) :
  Forall is_Finished (settle_all schedule ps w).1.2
  /\ (forall j p, ps !! j = Some p -> is_settled p = false ->
        exists r, Finished j r ∈ (settle_all schedule ps w).1.2).
Proof.
  revert ps w. induction schedule as [|choice later IH]; intros ps w.
  { cbn [settle_all]. apply (drain_settles 0). }
  cbn [settle_all].
  destruct (pending_from 0 ps !! (choice `mod` length (pending_from 0 ps)))
    as [i|] eqn:Hi.
  - pose proof (list_elem_of_lookup_2 _ _ _ Hi) as Hin.
    apply elem_of_pending_from in Hin as (j & p & -> & Hj & Hp).
    cbn [Nat.add]. rewrite Hj.
    destruct p as [r|f k]; [done|]. cbn [resume].
    destruct (IH (<[j := k w]> ps) (f w)) as [IH1 IH2].
    destruct (settle_all later (<[j := k w]> ps) (f w)) as [[w2 tr] ps'].
    cbn in *. split.
    { apply Forall_app. split; [apply finished_is_Finished | done]. }
    intros j' q Hj' Hq. destruct (decide (j = j')) as [<-|Hne].
    + destruct (k w) as [r|f' k'] eqn:Hk.
      * exists r. apply elem_of_app. left. cbn. apply elem_of_cons. by left.
      * destruct (IH2 j (Pending f' k')) as [r Hr]; [|done|].
        { apply list_lookup_insert_eq. by eapply lookup_lt_Some. }
        exists r. apply elem_of_app. by right.
    + destruct (IH2 j' q) as [r Hr]; [|done|].
      { by rewrite list_lookup_insert_ne. }
      exists r. apply elem_of_app. by right.
  - cbn. split; [constructor|].
    intros j p Hj Hp.
    assert (j ∈ pending_from 0 ps) as Hin.
    { apply elem_of_pending_from. by exists j, p. }
    apply lookup_ge_None_1 in Hi.
    destruct (pending_from 0 ps) as [|x pend]; [by apply elem_of_nil in Hin|].
    pose proof (Nat.mod_upper_bound choice (length (x :: pend))) as Hlt.
    cbn [length] in Hi, Hlt. lia.
Qed.

(** C1, as the code has it. A parallel macro whose sub-commands can fail
    by rejecting their promise only instantiates and starts them all, in
    the order of the array, before any of them is resumed; then every
    one of them settles, whatever the order in which they are resumed
    and whether the others are fulfilled or rejected; and the macro
    itself is fulfilled in every case: the outcomes of the sub-commands
    are dropped, a rejection among them is not reported. *)
Theorem parallel_macro_settles_all_and_is_fulfilled
  (schedule : list nat) (n : Notification) (m : MacroCommand.t) (w : W) :
  sequentialExecution m = false ->
  Forall (asynchronous construct command_execute) (subCommands m) ->
  let r := execute construct command_execute schedule n m w in
  r.2 = Fulfilled
  /\ (exists settled,
        r.1.2 = started_in_order 0 (subCommands m) (multitonKey m) n ++ settled
        /\ Forall is_Finished settled)
  /\ (forall i, i < length (subCommands m) -> exists res, Finished i res ∈ r.1.2).
Proof.
  intros Hpar Hasync. cbn zeta. unfold execute, execute_parallel.
  rewrite Hpar. cbn [negb].
  destruct (start_all_asynchronous 0 (subCommands m) (multitonKey m) n w Hasync)
    as (w1 & ps & -> & Hlen).
  destruct (settle_all_settles schedule ps w1) as [H1 H2].
  destruct (settle_all schedule ps w1) as [[w2 tr'] ps']. cbn in *.
  split; [done|]. split.
  - eexists. split; [reflexivity|].
    apply Forall_app. split; [apply finished_from_is_Finished | done].
  - intros i Hi. rewrite <- Hlen in Hi.
    destruct (lookup_lt_is_Some_2 ps i Hi) as [p Hp].
    destruct (is_settled p) eqn:Hs.
    + destruct (finished_from_settled 0 i ps p Hp Hs) as [r Hr].
      exists r. rewrite !elem_of_app. right. by left.
    + destruct (H2 i p Hp Hs) as [r Hr].
      exists r. rewrite !elem_of_app. right. by right.
Qed.

End ParallelFacts.

(** Against C1 as it is written: with sub-commands [A; B] where [A] is
    rejected and [B] is fulfilled, both settle and the macro is
    fulfilled; the failure of [A] is not to be seen in its completion. *)
Lemma parallel_macro_swallows_the_failure :
  let r := MacroCommand.execute construct_ok logging_execute [] game_over
             (macro_of false [1; 2]) [] in
  ~ ((forall i, i < 2 -> exists res, MacroCommand.Finished i res ∈ r.1.2)
     /\ MacroCommand.surfaces_failure r).
Proof.
  cbn zeta. intros [_ Hsurf].
  destruct Hsurf as [e He].
  - exists 0, "A failed". vm_compute. apply list_elem_of_In. cbn. tauto.
  - vm_compute in He. discriminate He.
Qed.

Lemma parallel_macro_witness :
  (MacroCommand.execute construct_ok logging_execute [1; 0; 0] game_over
     (macro_of false [1; 2]) []).2 = Fulfilled.
Proof.
  refine (proj1 (parallel_macro_settles_all_and_is_fulfilled
            construct_ok logging_execute [1; 0; 0] game_over
            (macro_of false [1; 2]) [] _ _)).
  - reflexivity.
  - repeat constructor; intros; eexists; reflexivity.
Defined.

(** A sub-command that throws before it hands a promise back leaves
    [map]: the sub-commands after it are not instantiated, those before
    it are left pending, and the macro is rejected. *)
Lemma parallel_macro_synchronous_throw :
  MacroCommand.execute construct_ok logging_execute [] game_over
    (macro_of false [1; 3; 2]) []
  = (["A starts"; "C throws"],
     [MacroCommand.Instantiated 0 1;
      MacroCommand.Executed 0 1 (KStr "core") game_over;
      MacroCommand.Instantiated 1 3;
      MacroCommand.Executed 1 3 (KStr "core") game_over],
     Rejected "C threw").
Proof. reflexivity. Qed.

(** * Further properties *)

(** ** Model: removal and round trips *)

Section ModelRoundTrips.

Import Model.

Variable onRegister : Proxy -> Model.t -> Model.t.
Variable onRemove : Proxy -> Model.t -> Model.t.

(** X1. [removeProxy] hands back what [retrieveProxy] finds under the
    name, calls [onRemove] on that proxy and on no other (on none when
    the name is free, and then the Model is untouched); provided the hook
    leaves the registry alone, the name is free afterwards and every
    other name keeps its proxy. *)
Theorem removeProxy_returns_and_unregisters (name : string) (m : Model.t) :
  (forall p m0, proxyMap (onRemove p m0) = proxyMap m0) ->
  let r := removeProxy onRemove name m in
  r.2 = retrieveProxy name m
  /\ r.1.2 = match retrieveProxy name m with
             | Some p => [OnRemove p]
             | None => []
             end
  /\ hasProxy name r.1.1 = false
  /\ (forall name', name' <> name ->
        retrieveProxy name' r.1.1 = retrieveProxy name' m)
  /\ (retrieveProxy name m = None -> r.1.1 = m).
Proof.
  intros Hhook. cbn zeta. unfold removeProxy, retrieveProxy, hasProxy.
  destruct (proxyMap m !! name) as [p|] eqn:Hp; cbn [fst snd].
  - rewrite Hhook. cbn [proxyMap]. split; [done|]. split; [done|]. split.
    + rewrite lookup_delete_eq. apply bool_decide_eq_false_2. by intros [? ?].
    + split; [|done]. intros name' Hne. by rewrite lookup_delete_ne.
  - split; [done|]. split; [done|]. split.
    + rewrite Hp. apply bool_decide_eq_false_2. by intros [? ?].
    + by split.
Qed.

(** X2. A proxy that is registered is found under its name, bound to the
    key of the Model; removing it then hands that same proxy back, calls
    its [onRemove] once, and leaves the registry as it was before the
    registration when the name was free (without the name otherwise).
    The hooks are assumed to leave the registry alone. *)
Theorem registerProxy_then_removeProxy (proxy : Proxy) (m : Model.t) :
  (forall p m0, proxyMap (onRegister p m0) = proxyMap m0) ->
  (forall p m0, proxyMap (onRemove p m0) = proxyMap m0) ->
  let proxy' := initializeNotifier (multitonKey m) proxy in
  let m1 := (registerProxy onRegister proxy m).1 in
  let r := removeProxy onRemove (getProxyName proxy) m1 in
  retrieveProxy (getProxyName proxy) m1 = Some proxy'
  /\ hasProxy (getProxyName proxy) m1 = true
  /\ r.2 = Some proxy'
  /\ r.1.2 = [OnRemove proxy']
  /\ proxyMap r.1.1 = delete (getProxyName proxy) (proxyMap m)
  /\ (retrieveProxy (getProxyName proxy) m = None -> proxyMap r.1.1 = proxyMap m).
Proof.
  intros Hreg Hrem. cbn zeta.
  assert (proxyMap (registerProxy onRegister proxy m).1 !! getProxyName proxy
          = Some (initializeNotifier (multitonKey m) proxy)) as Hfound.
  { rewrite registerProxy_state, Hreg. cbn [proxyMap]. apply lookup_insert_eq. }
  assert (proxyMap (removeProxy onRemove (getProxyName proxy)
                      (registerProxy onRegister proxy m).1).1.1
          = delete (getProxyName proxy) (proxyMap m)) as Hmap.
  { unfold removeProxy. rewrite Hfound. cbn [fst]. rewrite Hrem. cbn [proxyMap].
    rewrite registerProxy_state, Hreg. cbn [proxyMap].
    apply delete_insert_eq. }
  split; [exact Hfound|]. split.
  { unfold hasProxy. rewrite Hfound. apply bool_decide_eq_true_2. eauto. }
  unfold removeProxy at 1 2. rewrite Hfound. cbn [fst snd].
  split; [done|]. split; [done|]. split; [exact Hmap|].
  unfold retrieveProxy. intros Hfree. rewrite Hmap. by apply delete_id.
Qed.

End ModelRoundTrips.

Lemma removeProxy_returns_and_unregisters_witness :
  (Model.removeProxy Model.Proxy_onRemove "score" model_with_score).2
  = Some (Model.mkProxy 1 "score" (KStr "core")).
Proof.
  refine (eq_trans (proj1 (removeProxy_returns_and_unregisters
            Model.Proxy_onRemove "score" model_with_score _)) _).
  - reflexivity.
  - vm_compute. reflexivity.
Defined.

Lemma registerProxy_then_removeProxy_witness :
  Model.proxyMap
    (Model.removeProxy Model.Proxy_onRemove "score"
       (Model.registerProxy Model.Proxy_onRegister score_old
          (Model.new (KStr "core"))).1).1.1
  = Model.proxyMap (Model.new (KStr "core")).
Proof.
  refine (proj2 (proj2 (proj2 (proj2 (proj2
    (registerProxy_then_removeProxy Model.Proxy_onRegister Model.Proxy_onRemove
       score_old (Model.new (KStr "core")) _ _))))) _).
  - reflexivity.
  - reflexivity.
  - reflexivity.
Defined.

(** ** View: observers *)

Section ViewObservers.

Import View.

Variable callback : FunctionId -> ObjectId -> Notification -> Call View.t.

Lemma set_observerMap_insert_id (name : string) (l : list Observer) (v : View.t) :
  observerMap v !! name = Some l -> set_observerMap (insert name l) v = v.
Proof.
  intros Hl. destruct v as [mm om key]. unfold set_observerMap. cbn in *.
  by rewrite insert_id.
Qed.

Lemma removeObserver_scan_end (ctx : ObjectId) (l : list Observer) (o : Observer) :
  getNotifyContext o = ctx ->
  removeObserver_scan (length (l ++ [o])) ctx (l ++ [o]) = l.
Proof.
  intros Ho.
  rewrite (removeObserver_scan_last (length (l ++ [o])) ctx l [] o).
  - apply app_nil_r.
  - unfold compareNotifyContext. by apply bool_decide_eq_true_2.
  - constructor.
  - rewrite length_app. cbn. lia.
Qed.

(** Unsubscribing the context of an observer right after the observer
    was subscribed gives the View back. *)
Lemma removeObserver_cancels_registerObserver (name : string) (o : Observer)
  (v : View.t) :
  observer_lists_nonempty v ->
  removeObserver name (getNotifyContext o) (registerObserver name o v) = v.
Proof.
  intros Hv. unfold registerObserver.
  destruct (observerMap v !! name) as [l|] eqn:Hl.
  - unfold removeObserver. cbn [observerMap set_observerMap].
    rewrite lookup_insert_eq, removeObserver_scan_end by done.
    rewrite bool_decide_eq_false_2.
    2:{ intros Hlen. apply (Hv name l Hl). by destruct l. }
    destruct v as [mm om key]. unfold set_observerMap. cbn in *.
    by rewrite insert_insert_eq, insert_id.
  - unfold removeObserver. cbn [observerMap set_observerMap].
    rewrite lookup_insert_eq.
    change [o] with ([] ++ [o]). rewrite removeObserver_scan_end by done.
    rewrite bool_decide_eq_true_2 by done.
    destruct v as [mm om key]. unfold set_observerMap. cbn in *.
    by rewrite delete_insert_eq, delete_id.
Qed.

Lemma notifyObservers_invoked (n : Notification) (v : View.t) :
  invoked (notifyObservers callback n v).1.2
  = default [] (observerMap v !! getName n).
Proof.
  unfold notifyObservers.
  destruct (observerMap v !! getName n) as [l|]; [|done].
  by rewrite notify_each_trace, invoked_Invoked.
Qed.

(** X3. [removeObserver] for a name without observers changes nothing.
    For a name with observers it takes out of the array the last
    observer of the given context, and that one only: when no observer
    has the context the View is unchanged; the name is dropped when the
    array has become empty. Mediators and the other names are untouched. *)
Theorem removeObserver_takes_out_the_last_of_the_context
  (name : string) (ctx : ObjectId) (v : View.t) :
  (observerMap v !! name = None -> removeObserver name ctx v = v)
  /\ (forall l,
        observerMap v !! name = Some l -> l <> [] ->
        (Forall (fun o => getNotifyContext o <> ctx) l
         /\ removeObserver name ctx v = v)
        \/ (exists l1 o l2,
              l = l1 ++ o :: l2
              /\ getNotifyContext o = ctx
              /\ Forall (fun o' => getNotifyContext o' <> ctx) l2
              /\ observerMap (removeObserver name ctx v) !! name
                 = if decide (l1 ++ l2 = []) then None else Some (l1 ++ l2)))
  /\ mediatorMap (removeObserver name ctx v) = mediatorMap v
  /\ (forall name', name <> name' ->
        observerMap (removeObserver name ctx v) !! name' = observerMap v !! name').
Proof.
  split; [|split; [|split]].
  - intros Hnone. unfold removeObserver. by rewrite Hnone.
  - intros l Hl Hne.
    destruct (removeObserver_scan_spec ctx l)
      as [[Hnone Hscan]|(l1 & o & l2 & Heq & Ho & Hl2 & Hscan)].
    + left. split.
      * eapply Forall_impl; [exact Hnone|]. cbn. intros o Ho Heq.
        unfold compareNotifyContext in Ho.
        apply bool_decide_eq_false_1 in Ho. by apply Ho.
      * unfold removeObserver. rewrite Hl, Hscan.
        rewrite bool_decide_eq_false_2 by (by destruct l).
        by apply set_observerMap_insert_id.
    + right. exists l1, o, l2. split; [done|]. split; [done|]. split; [done|].
      unfold removeObserver. rewrite Hl, Hscan.
      destruct (decide (l1 ++ l2 = [])) as [Hnil|Hcons].
      * rewrite bool_decide_eq_true_2 by (by rewrite Hnil). cbn.
        apply lookup_delete_eq.
      * rewrite bool_decide_eq_false_2 by (by destruct (l1 ++ l2)). cbn.
        apply lookup_insert_eq.
  - unfold removeObserver. destruct (observerMap v !! name); [|done].
    by case_bool_decide.
  - intros name' Hne. by apply removeObserver_other_name.
Qed.

(** X4. In a View that keeps no empty observer array, subscribing an
    observer and then unsubscribing its context gives the View back as it
    was: the map, and with it every later delivery. *)
Theorem registerObserver_then_removeObserver (name : string) (o : Observer)
  (n : Notification) (v : View.t) :
  observer_lists_nonempty v ->
  let v' := removeObserver name (getNotifyContext o) (registerObserver name o v) in
  v' = v
  /\ notifyObservers callback n v' = notifyObservers callback n v.
Proof.
  intros Hv. cbn zeta.
  by rewrite removeObserver_cancels_registerObserver.
Qed.

(** X5. In a View that keeps no empty observer array, a notification
    calls no observer exactly when its name is not in the observer map;
    [notifyObservers] then leaves the View as it is, calls nothing and
    leaves no promise behind, and the awaiting loop of the bundle is
    fulfilled. *)
Theorem notifyObservers_is_silent_iff_nobody_listens (n : Notification) (v : View.t) :
  observer_lists_nonempty v ->
  (invoked (notifyObservers callback n v).1.2 = []
   <-> observerMap v !! getName n = None)
  /\ (observerMap v !! getName n = None ->
      notifyObservers callback n v = (v, [], [])
      /\ notifyObservers_bundle callback n v = (v, [], Fulfilled)).
Proof.
  intros Hv. split.
  - rewrite notifyObservers_invoked. split.
    + destruct (observerMap v !! getName n) as [l|] eqn:Hl; [|done].
      cbn. intros ->. by destruct (Hv _ _ Hl).
    + by intros ->.
  - intros Hnone. unfold notifyObservers, notifyObservers_bundle.
    by rewrite Hnone.
Qed.

(** *** The loop of the bundle and a rejected observer *)

Lemma await_each_app (pre post : list Observer) (n : Notification) (v : View.t) :
  await_each callback (pre ++ post) n v
  = match await_each callback pre n v with
    | (v1, tr1, Fulfilled) =>
        let '(v2, tr2, r) := await_each callback post n v1 in
        (v2, tr1 ++ tr2, r)
    | (v1, tr1, Rejected e) => (v1, tr1, Rejected e)
    end.
Proof.
  revert v. induction pre as [|o pre IH]; intros v.
  - cbn. by destruct (await_each callback post n v) as [[v2 tr2] r].
  - cbn [app await_each].
    destruct (notifyObserver callback o n v) as [v1 p].
    destruct (await p v1) as [v2 [|e]]; [|done].
    rewrite IH.
    destruct (await_each callback pre n v2) as [[v3 tr] [|e]]; [|done].
    by destruct (await_each callback post n v3) as [[v4 tr2] r].
Qed.

(** X6. The awaiting [notifyObservers] of the bundle stops at the first
    observer whose promise is rejected: the observers before it have been
    called and awaited in order, the call is rejected with the error of
    that observer, in the world that observer has left, and no observer
    after it is called. *)
Theorem notifyObservers_bundle_stops_at_a_rejection
  (n : Notification) (v v1 v2 : View.t) (pre post : list Observer) (o : Observer)
  (tr1 : list Event) (e : Error) :
  observerMap v !! getName n = Some (pre ++ o :: post) ->
  await_each callback pre n v = (v1, tr1, Fulfilled) ->
  await (notifyObserver callback o n v1).2 (notifyObserver callback o n v1).1
  = (v2, Rejected e) ->
  notifyObservers_bundle callback n v
  = (v2, tr1 ++ [Invoked o n; Completed o (Rejected e)], Rejected e)
  /\ invoked (notifyObservers_bundle callback n v).1.2 = pre ++ [o].
Proof.
  intros Hl Hpre Ho.
  assert (notifyObservers_bundle callback n v
          = (v2, tr1 ++ [Invoked o n; Completed o (Rejected e)], Rejected e))
    as Hrun.
  { unfold notifyObservers_bundle. rewrite Hl, await_each_app, Hpre.
    cbn [await_each].
    destruct (notifyObserver callback o n v1) as [v1' p]. cbn [fst snd] in Ho.
    by rewrite Ho. }
  split; [exact Hrun|]. rewrite Hrun. cbn [fst snd].
  pose proof (await_each_invoked callback pre n v) as [_ Hinv].
  rewrite Hpre in Hinv. cbn [fst snd] in Hinv.
  unfold invoked in *. rewrite omap_app, Hinv by done. reflexivity.
Qed.

End ViewObservers.

Lemma view_with_two_observers_nonempty :
  observer_lists_nonempty view_with_two_observers.
Proof.
  apply registerObserver_nonempty, registerObserver_nonempty.
  intros name l. cbn. by rewrite lookup_empty.
Qed.

Lemma registerObserver_then_removeObserver_witness :
  removeObserver "PAUSE" 103 (registerObserver "PAUSE" o3 view_with_two_observers)
  = view_with_two_observers.
Proof.
  exact (proj1 (registerObserver_then_removeObserver callbacks "PAUSE" o3 pause
                  view_with_two_observers view_with_two_observers_nonempty)).
Defined.

Lemma notifyObservers_is_silent_witness :
  notifyObservers callbacks pause view_with_two_observers
  = (view_with_two_observers, [], []).
Proof.
  refine (proj1 (proj2 (notifyObservers_is_silent_iff_nobody_listens callbacks
                          pause view_with_two_observers
                          view_with_two_observers_nonempty) _)).
  vm_compute. reflexivity.
Defined.

Lemma notifyObservers_bundle_stops_witness :
  invoked (notifyObservers_bundle throwing_callbacks game_over
             view_with_a_throwing_observer).1.2
  = [o3; o4].
Proof.
  refine (proj2 (notifyObservers_bundle_stops_at_a_rejection throwing_callbacks
            game_over view_with_a_throwing_observer view_with_a_throwing_observer
            view_with_a_throwing_observer [o3] [o5] o4
            [Invoked o3 game_over; Completed o3 Fulfilled] "handler failed"
            _ _ _)).
  - vm_compute. reflexivity.
  - reflexivity.
  - reflexivity.
Defined.

(** ** View: mediators *)

Section ViewMediators.

Import View.

Variable callback : FunctionId -> ObjectId -> Notification -> Call View.t.
Variable onRegister : Mediator -> View.t -> View.t.
Variable onRemove : Mediator -> View.t -> View.t.

Lemma registerObserver_mediatorMap (name : string) (o : Observer) (v : View.t) :
  mediatorMap (registerObserver name o v) = mediatorMap v.
Proof. unfold registerObserver. by destruct (observerMap v !! name). Qed.

Lemma removeObserver_mediatorMap (name : string) (ctx : ObjectId) (v : View.t) :
  mediatorMap (removeObserver name ctx v) = mediatorMap v.
Proof.
  unfold removeObserver. destruct (observerMap v !! name); [|done].
  by case_bool_decide.
Qed.

Lemma registerObserver_each_mediatorMap (interests : list string) (o : Observer)
  (v : View.t) :
  mediatorMap (foldl (fun acc interest => registerObserver interest o acc) v interests)
  = mediatorMap v.
Proof.
  revert v. induction interests as [|i rest IH]; intros v; [done|].
  cbn. by rewrite IH, registerObserver_mediatorMap.
Qed.

Lemma removeObserver_each_mediatorMap (interests : list string) (ctx : ObjectId)
  (v : View.t) :
  mediatorMap (foldl (fun acc interest => removeObserver interest ctx acc) v interests)
  = mediatorMap v.
Proof.
  revert v. induction interests as [|i rest IH]; intros v; [done|].
  cbn. by rewrite IH, removeObserver_mediatorMap.
Qed.

(** Under each name the observer comes once for each time the name is
    among the interests, after the observers that were there. *)
Lemma registerObserver_each_lookup (interests : list string) (o : Observer)
  (name : string) (v : View.t) :
  default [] (observerMap
                (foldl (fun acc interest => registerObserver interest o acc)
                       v interests) !! name)
  = default [] (observerMap v !! name)
    ++ ((fun _ => o) <$> filter (fun i => i = name) interests).
Proof.
  revert v. induction interests as [|i rest IH]; intros v.
  { cbn. by rewrite app_nil_r. }
  cbn [foldl]. rewrite IH. destruct (decide (i = name)) as [->|Hne].
  - rewrite filter_cons_True by done. rewrite registerObserver_appends.
    cbn [from_option]. unfold id. by rewrite <- app_assoc.
  - rewrite filter_cons_False by done.
    by rewrite registerObserver_other_name.
Qed.




(** What [registerMediator] makes of a View in which the name is free. *)
Lemma registerMediator_fresh (mediator : Mediator) (v : View.t) :
  mediatorMap v !! getMediatorName mediator = None ->
  registerMediator onRegister mediator v
  = (onRegister (initializeNotifier (multitonKey v) mediator)
       (foldl (fun acc interest =>
                 registerObserver interest
                   (mkObserver (Some (handleNotification mediator))
                               (mediatorId mediator)) acc)
              (set_mediatorMap
                 (insert (getMediatorName mediator)
                         (initializeNotifier (multitonKey v) mediator)) v)
              (listNotificationInterests mediator)),
     [OnRegister (initializeNotifier (multitonKey v) mediator)]).
Proof.
  intros Hfree. unfold registerMediator. rewrite Hfree.
  rewrite bool_decide_eq_false_2 by (by intros [? ?]).
  cbn [initializeNotifier listNotificationInterests handleNotification mediatorId].
  case_bool_decide as Hlen; [done|].
  destruct (listNotificationInterests mediator); [done|]. cbn in Hlen. lia.
Qed.

(** X7. Registering a mediator under a free name binds it to the key of
    the View, calls its [onRegister] once, and makes it retrievable
    under its name, the other names keeping their mediators; one
    observer wrapping its [handleNotification], with the mediator as
    context, is subscribed under each of its interests, after the
    observers already there: a notification of an interest reaches it
    (once for each time the name is listed), a notification of another
    name is delivered as before. The hook is assumed to leave the two
    maps alone. *)
Theorem registerMediator_registers_and_subscribes
  (mediator : Mediator) (v : View.t) :
  mediatorMap v !! getMediatorName mediator = None ->
  (forall m v0, observerMap (onRegister m v0) = observerMap v0
                /\ mediatorMap (onRegister m v0) = mediatorMap v0) ->
  let mediator' := initializeNotifier (multitonKey v) mediator in
  let observer := mkObserver (Some (handleNotification mediator))
                             (mediatorId mediator) in
  let v' := (registerMediator onRegister mediator v).1 in
  (registerMediator onRegister mediator v).2 = [OnRegister mediator']
  /\ retrieveMediator (getMediatorName mediator) v' = Some mediator'
  /\ hasMediator (getMediatorName mediator) v' = true
  /\ (forall name, name <> getMediatorName mediator ->
        retrieveMediator name v' = retrieveMediator name v)
  /\ (forall n,
        invoked (notifyObservers callback n v').1.2
        = invoked (notifyObservers callback n v).1.2
          ++ ((fun _ => observer)
                <$> filter (fun i => i = getName n)
                           (listNotificationInterests mediator))).
Proof.
  intros Hfree Hhook. cbn zeta. rewrite registerMediator_fresh by done.
  cbn [fst snd]. unfold retrieveMediator, hasMediator.
  destruct (Hhook (initializeNotifier (multitonKey v) mediator)
              (foldl (fun acc interest =>
                        registerObserver interest
                          (mkObserver (Some (handleNotification mediator))
                                      (mediatorId mediator)) acc)
                 (set_mediatorMap
                    (insert (getMediatorName mediator)
                            (initializeNotifier (multitonKey v) mediator)) v)
                 (listNotificationInterests mediator))) as [Hom Hmm].
  rewrite Hmm, registerObserver_each_mediatorMap. cbn [mediatorMap set_mediatorMap].
  split; [done|]. split; [apply lookup_insert_eq|]. split.
  { rewrite lookup_insert_eq. apply bool_decide_eq_true_2. eauto. }
  split.
  { intros name Hne. by rewrite lookup_insert_ne. }
  intros n. rewrite !notifyObservers_invoked, Hom.
  by rewrite registerObserver_each_lookup.
Qed.


(** X9. [removeMediator] hands back the mediator that [retrieveMediator]
    finds under the name, with its interests popped, and calls
    [onRemove] on it and on no other; for a free name it calls nothing
    and leaves the View untouched. The mediator handed back keeps its
    name, its identity, its handler and its key; its interests are those
    it was registered with unless [listNotificationInterests] returns
    its own array, which is empty by then. Provided the hook leaves the
    mediator map alone, the name is free afterwards and every other name
    keeps its mediator. *)
Theorem removeMediator_returns_and_unregisters (name : string) (v : View.t) :
  (forall m v0, mediatorMap (onRemove m v0) = mediatorMap v0) ->
  let r := removeMediator onRemove name v in
  r.2 = interestsPopped <$> retrieveMediator name v
  /\ (forall m, r.2 = Some m ->
        exists m0, retrieveMediator name v = Some m0
          /\ mediatorId m = mediatorId m0
          /\ getMediatorName m = getMediatorName m0
          /\ handleNotification m = handleNotification m0
          /\ mediatorKey m = mediatorKey m0
          /\ listNotificationInterests m
             = if returnsOwnArray m0 then [] else listNotificationInterests m0)
  /\ r.1.2 = match retrieveMediator name v with
             | Some m => [OnRemove (interestsPopped m)]
             | None => []
             end
  /\ hasMediator name r.1.1 = false
  /\ (forall name', name' <> name ->
        retrieveMediator name' r.1.1 = retrieveMediator name' v)
  /\ (retrieveMediator name v = None -> r.1.1 = v).
Proof.
  intros Hhook. cbn zeta. unfold removeMediator, retrieveMediator, hasMediator.
  destruct (mediatorMap v !! name) as [m|] eqn:Hm; cbn [fst snd].
  - rewrite Hhook. cbn [mediatorMap set_mediatorMap].
    rewrite removeObserver_each_mediatorMap.
    split; [done|]. split.
    { intros m' Hm'. exists m. by simplify_eq. }
    split; [done|]. split.
    + rewrite lookup_delete_eq. apply bool_decide_eq_false_2. by intros [? ?].
    + split; [|done]. intros name' Hne. by rewrite lookup_delete_ne.
  - split; [done|]. split; [done|]. split; [done|]. split.
    + rewrite Hm. apply bool_decide_eq_false_2. by intros [? ?].
    + by split.
Qed.

End ViewMediators.

Lemma new_view_nonempty (key : JsKey) : observer_lists_nonempty (View.new key).
Proof. intros name l. cbn. by rewrite lookup_empty. Qed.

Lemma registerMediator_registers_witness :
  invoked (notifyObservers callbacks game_over view_with_mediator).1.2
  = [mkObserver (Some 7) 201].
Proof.
  refine (eq_trans (proj2 (proj2 (proj2 (proj2
    (registerMediator_registers_and_subscribes callbacks no_hook first_mediator
       (View.new (KStr "core")) _ _)))) game_over) _).
  - reflexivity.
  - intros m v0. split; reflexivity.
  - vm_compute. reflexivity.
Defined.


Lemma removeMediator_returns_witness :
  (removeMediator no_hook "S" view_with_stored_mediator).2
  = Some (View.mkMediator 203 "S" [] true 9 (KStr "core"))
  /\ (removeMediator no_hook "M" view_with_mediator).2
     = Some (View.mkMediator 201 "M" ["GAME_OVER"] false 7 (KStr "core")).
Proof.
  split.
  - exact (proj1 (removeMediator_returns_and_unregisters no_hook "S"
                    view_with_stored_mediator (fun m v0 => eq_refl))).
  - exact (proj1 (removeMediator_returns_and_unregisters no_hook "M"
                    view_with_mediator (fun m v0 => eq_refl))).
Defined.

(** ** Controller: removal and the subscription invariant *)

Section ControllerRoundTrips.

Import Controller.

Variable executeCommand_fn : FunctionId.
Variable construct : CommandClass -> Controller.t -> Controller.t * option Error.
Variable command_execute : CommandClass -> JsKey -> Notification -> Call Controller.t.

Lemma hasCommand_false (name : string) (c : Controller.t) :
  hasCommand name c = false -> commandMap c !! name = None.
Proof.
  unfold hasCommand. intros H. apply bool_decide_eq_false_1 in H.
  destruct (commandMap c !! name); [|done]. destruct H. eauto.
Qed.

(** X10. A controller built on an empty view, whose context no other
    client of the view subscribes or unsubscribes, has its view and is
    subscribed exactly once under every name it has a command for, and
    not at all under any other name, however commands have been
    registered, replaced and removed. *)
Theorem controller_is_subscribed_once_per_command (c : Controller.t)
  (name : string) :
  Controller.reachable executeCommand_fn c ->
  is_Some (view c)
  /\ (hasCommand name c = true ->
      exists o, subscriptions name c = [o] /\ getNotifyContext o = controllerId c)
  /\ (hasCommand name c = false -> subscriptions name c = []).
Proof.
  intros Hreach.
  destruct (reachable_subscribed_once executeCommand_fn c Hreach) as [Hview Hone].
  split; [exact Hview|]. specialize (Hone name). split.
  - intros Hhas. rewrite Hhas in Hone.
    destruct (subscriptions name c) as [|o [|o' l]] eqn:Hsubs; try done.
    exists o. split; [done|].
    assert (o ∈ subscriptions name c) as Hin by (rewrite Hsubs; apply elem_of_cons; by left).
    unfold subscriptions in Hin. destruct (view c); [|by apply elem_of_nil in Hin].
    by apply list_elem_of_filter in Hin as [Hctx _].
  - intros Hhas. rewrite Hhas in Hone. by destruct (subscriptions name c).
Qed.

Lemma removeCommand_cancels_registerCommand (name : string)
  (commandClass : CommandClass) (c : Controller.t) (v : View.t) :
  view c = Some v ->
  observer_lists_nonempty v ->
  hasCommand name c = false ->
  removeCommand name (registerCommand executeCommand_fn name commandClass c) = c.
Proof.
  intros Hview Hv Hhas. unfold removeCommand.
  rewrite registerCommand_hasCommand, registerCommand_controllerId.
  unfold registerCommand. rewrite Hhas. cbn [negb].
  destruct c as [cid vw cm key]. cbn in *. subst vw.
  unfold set_commandMap, set_view. cbn. f_equal.
  - f_equal.
    exact (removeObserver_cancels_registerObserver name
             (mkObserver (Some executeCommand_fn) cid) v Hv).
  - apply hasCommand_false in Hhas. cbn in Hhas.
    by rewrite delete_insert_eq, delete_id.
Qed.

(** X11. On a controller that has no command for a name, and whose view
    keeps no empty observer array, registering a command for the name
    makes [hasCommand] true, and removing it then gives the controller
    and its view back as they were. *)
Theorem registerCommand_then_removeCommand (name : string)
  (commandClass : CommandClass) (c : Controller.t) (v : View.t) :
  view c = Some v ->
  observer_lists_nonempty v ->
  hasCommand name c = false ->
  hasCommand name (registerCommand executeCommand_fn name commandClass c) = true
  /\ removeCommand name (registerCommand executeCommand_fn name commandClass c) = c.
Proof.
  intros Hview Hv Hhas. split.
  - apply registerCommand_hasCommand.
  - by eapply removeCommand_cancels_registerCommand.
Qed.

(** X12. After [removeCommand] a reachable controller has no command for
    the name and is not subscribed under it any more, so that
    [executeCommand] for a notification of that name instantiates
    nothing and is fulfilled at once; the commands and subscriptions of
    the other names are untouched. Removing a command that is not
    registered changes nothing. *)
Theorem removeCommand_unsubscribes (name : string) (n : Notification)
  (c : Controller.t) :
  Controller.reachable executeCommand_fn c ->
  getName n = name ->
  let c' := removeCommand name c in
  hasCommand name c' = false
  /\ subscriptions name c' = []
  /\ executeCommand construct command_execute n c' = (c', [], Settled Fulfilled)
  /\ (forall name', name <> name' ->
        commandMap c' !! name' = commandMap c !! name'
        /\ subscriptions name' c' = subscriptions name' c)
  /\ (hasCommand name c = false -> c' = c).
Proof.
  intros Hreach Hname. cbn zeta.
  destruct (reachable_subscribed_once executeCommand_fn c Hreach) as [_ Hone].
  destruct (removeCommand_same_name name c) as [Hlen Hhas].
  split; [exact Hhas|]. split.
  { rewrite (Hone name) in Hlen.
    destruct (hasCommand name c); by destruct (subscriptions name (removeCommand name c)). }
  split.
  { unfold executeCommand. rewrite Hname, (hasCommand_false _ _ Hhas). done. }
  split.
  - intros name' Hne. split; [|by apply removeCommand_other_name].
    unfold removeCommand. destruct (hasCommand name c); [|done].
    cbn. by rewrite lookup_delete_ne.
  - intros Hnone. unfold removeCommand. by rewrite Hnone.
Qed.

End ControllerRoundTrips.

Lemma controller_reachable_example :
  Controller.reachable 9
    (Controller.registerCommand 9 "PAUSE" 22
       (Controller.registerCommand 9 "GAME_OVER" 11 controller)).
Proof. apply Controller.reach_registerCommand, Controller.reach_registerCommand, Controller.reach_new. Qed.

Lemma controller_is_subscribed_once_witness :
  Controller.subscriptions "QUIT"
    (Controller.registerCommand 9 "PAUSE" 22
       (Controller.registerCommand 9 "GAME_OVER" 11 controller)) = [].
Proof.
  refine (proj2 (proj2 (controller_is_subscribed_once_per_command 9 _ "QUIT"
                          controller_reachable_example)) _).
  vm_compute. reflexivity.
Defined.

Lemma registerCommand_then_removeCommand_witness :
  Controller.removeCommand "GAME_OVER"
    (Controller.registerCommand 9 "GAME_OVER" 11 controller) = controller.
Proof.
  refine (proj2 (registerCommand_then_removeCommand 9 "GAME_OVER" 11 controller
                   (View.new (KStr "core")) _ (new_view_nonempty _) _)).
  - reflexivity.
  - vm_compute. reflexivity.
Defined.

Lemma removeCommand_unsubscribes_witness :
  Controller.hasCommand "PAUSE"
    (Controller.removeCommand "PAUSE"
       (Controller.registerCommand 9 "PAUSE" 22
          (Controller.registerCommand 9 "GAME_OVER" 11 controller))) = false.
Proof.
  refine (proj1 (removeCommand_unsubscribes 9 construct_ok execute_at_once
                   "PAUSE" pause _ controller_reachable_example _)).
  reflexivity.
Defined.

(** ** The multiton instance maps: factories and teardown *)

Section MultitonLifecycle.

Import Multiton.

Lemma map_grows_at_refl (key : JsKey) (a a' : nat) (m : gmap JsKey ObjectId) :
  map_grows_at key a a' m m.
Proof. repeat split; auto. Qed.

Lemma map_grows_at_trans (key : JsKey) (a a' a'' : nat)
  (m m' m'' : gmap JsKey ObjectId) :
  a <= a' -> a' <= a'' ->
  map_grows_at key a a' m m' -> map_grows_at key a' a'' m' m'' ->
  map_grows_at key a a'' m m''.
Proof.
  intros Ha Ha' (H1 & H2 & H3) (H1' & H2' & H3'). repeat split.
  - intros key' Hne. by rewrite H1', H1.
  - intros id Hid. by apply H2', H2.
  - intros id Hid. destruct (H3' id Hid) as [Hold|Hnew]; [|right; lia].
    destruct (H3 id Hold) as [Hold'|Hnew]; [by left | right; lia].
Qed.

Lemma map_grows_at_weaken (key : JsKey) (a a' b b' : nat)
  (m m' : gmap JsKey ObjectId) :
  b <= a -> a' <= b' -> map_grows_at key a a' m m' -> map_grows_at key b b' m m'.
Proof.
  intros Hb Hb' (H1 & H2 & H3). repeat split; [done|done|].
  intros id Hid. destruct (H3 id Hid); [by left | right; lia].
Qed.

Lemma map_grows_at_insert (key : JsKey) (a : nat) (m : gmap JsKey ObjectId) :
  m !! key = None -> map_grows_at key a (S a) m (<[key := a]> m).
Proof.
  intros Hnone. repeat split.
  - intros key' Hne. by rewrite lookup_insert_ne.
  - intros id Hid. congruence.
  - intros id Hid. rewrite lookup_insert_eq in Hid. injection Hid as <-.
    right. lia.
Qed.

Lemma not_is_Some_None {A} (o : option A) : ~ is_Some o -> o = None.
Proof. destruct o; [|done]. intros H. destruct H. eauto. Qed.

Lemma grows_at_refl (key : JsKey) (st : Multiton.t) : grows_at key st st.
Proof.
  split; [done|].
  split; [|split; [|split]]; apply map_grows_at_refl.
Qed.

Lemma grows_at_trans (key : JsKey) (st st' st'' : Multiton.t) :
  grows_at key st st' -> grows_at key st' st'' -> grows_at key st st''.
Proof.
  intros (Ha & HM & HV & HC & HF) (Ha' & HM' & HV' & HC' & HF').
  split; [lia|].
  split; [|split; [|split]]; eapply map_grows_at_trans; eauto.
Qed.

Lemma Model_getInstance_grows (key : JsKey) (st : Multiton.t) :
  grows_at key st (Model_getInstance key st).1.
Proof.
  unfold Model_getInstance, Model_new.
  case_bool_decide as H; cbn [negb fst]; [apply grows_at_refl|].
  apply not_is_Some_None in H.
  split; [cbn; lia|]. cbn. rewrite insert_insert_eq.
  split; [|split; [|split]];
    (by apply map_grows_at_insert) || apply map_grows_at_refl.
Qed.

Lemma View_getInstance_grows (key : JsKey) (st : Multiton.t) :
  grows_at key st (View_getInstance key st).1.
Proof.
  unfold View_getInstance, View_new.
  case_bool_decide as H; cbn [negb fst]; [apply grows_at_refl|].
  apply not_is_Some_None in H.
  split; [cbn; lia|]. cbn. rewrite insert_insert_eq.
  split; [|split; [|split]];
    (by apply map_grows_at_insert) || apply map_grows_at_refl.
Qed.

Lemma Controller_getInstance_grows (key : JsKey) (st : Multiton.t) :
  grows_at key st (Controller_getInstance key st).1.
Proof.
  unfold Controller_getInstance, Controller_new.
  case_bool_decide as H; cbn [negb fst]; [apply grows_at_refl|].
  apply not_is_Some_None in H.
  set (st1 := {| Model_instanceMap := Model_instanceMap st;
                 View_instanceMap := View_instanceMap st;
                 Controller_instanceMap := <[key := allocated st]> (Controller_instanceMap st);
                 Facade_instanceMap := Facade_instanceMap st;
                 allocated := S (allocated st) |}).
  assert (grows_at key st st1) as H1.
  { split; [cbn; lia|]. cbn.
    split; [|split; [|split]];
      (by apply map_grows_at_insert) || apply map_grows_at_refl. }
  pose proof (View_getInstance_grows key st1) as H2.
  pose proof (View_getInstance_controllers key st1) as Hc.
  destruct (View_getInstance key st1) as [st2 o]. cbn [fst] in *.
  eapply grows_at_trans; [exact H1|].
  destruct H2 as (Ha & HM & HV & HC & HF).
  split; [done|]. cbn. rewrite Hc. cbn. rewrite insert_insert_eq.
  rewrite Hc in HC. cbn in HC.
  split; [|split; [|split]]; assumption.
Qed.

Lemma initializeFacade_facades (key : JsKey) (st : Multiton.t) :
  Facade_instanceMap (initializeFacade key st) = Facade_instanceMap st.
Proof.
  unfold initializeFacade.
  by rewrite View_getInstance_facades, Controller_getInstance_facades,
    Model_getInstance_facades.
Qed.

Lemma initializeFacade_grows (key : JsKey) (st : Multiton.t) :
  grows_at key st (initializeFacade key st).
Proof.
  unfold initializeFacade.
  eapply grows_at_trans; [apply Model_getInstance_grows|].
  eapply grows_at_trans; [apply Controller_getInstance_grows|].
  apply View_getInstance_grows.
Qed.

Lemma initializeFacade_registered (key : JsKey) (st : Multiton.t) :
  is_Some (Model_instanceMap (initializeFacade key st) !! key)
  /\ is_Some (View_instanceMap (initializeFacade key st) !! key)
  /\ is_Some (Controller_instanceMap (initializeFacade key st) !! key).
Proof.
  unfold initializeFacade.
  set (st1 := (Model_getInstance key st).1).
  set (st2 := (Controller_getInstance key st1).1).
  destruct (Model_getInstance_registered key st) as [m Hm]. fold st1 in Hm.
  destruct (Controller_getInstance_registered key st1) as [c Hc]. fold st2 in Hc.
  destruct (Controller_getInstance_grows key st1) as (_ & (_ & HM1 & _) & _).
  fold st2 in HM1.
  destruct (View_getInstance_grows key st2) as (_ & (_ & HM2 & _) & _ & (_ & HC2 & _) & _).
  split; [|split].
  - exists m. by apply HM2, HM1.
  - apply View_getInstance_registered.
  - exists c. by apply HC2.
Qed.

(** The state in which [new Facade(key)] leaves the maps when the key is
    free, which is the state [getInstance] leaves them in. *)
Lemma Facade_getInstance_absent (key : JsKey) (st : Multiton.t) :
  Facade_instanceMap st !! key = None ->
  Facade_getInstance key st
  = (initializeFacade key
       {| Model_instanceMap := Model_instanceMap st;
          View_instanceMap := View_instanceMap st;
          Controller_instanceMap := Controller_instanceMap st;
          Facade_instanceMap := <[key := allocated st]> (Facade_instanceMap st);
          allocated := S (allocated st) |},
     Some (allocated st)).
Proof.
  intros Hnone. unfold Facade_getInstance, Facade_new. rewrite Hnone.
  rewrite bool_decide_eq_false_2 by (by intros [? ?]). cbn [negb].
  set (st1 := {| Model_instanceMap := Model_instanceMap st;
                 View_instanceMap := View_instanceMap st;
                 Controller_instanceMap := Controller_instanceMap st;
                 Facade_instanceMap := <[key := allocated st]> (Facade_instanceMap st);
                 allocated := S (allocated st) |}).
  pose proof (initializeFacade_facades key st1) as HF.
  destruct (initializeFacade key st1) as [M V C F a]. cbn in HF. subst F.
  cbn. rewrite insert_insert_eq, lookup_insert_eq. reflexivity.
Qed.

Lemma Facade_getInstance_present (key : JsKey) (st : Multiton.t) :
  is_Some (Facade_instanceMap st !! key) ->
  Facade_getInstance key st = (st, Facade_instanceMap st !! key).
Proof.
  intros Hsome. unfold Facade_getInstance.
  by rewrite bool_decide_eq_true_2.
Qed.

Lemma Facade_getInstance_grows (key : JsKey) (st : Multiton.t) :
  grows_at key st (Facade_getInstance key st).1.
Proof.
  destruct (Facade_instanceMap st !! key) as [f|] eqn:Hf.
  - rewrite Facade_getInstance_present by eauto. apply grows_at_refl.
  - rewrite Facade_getInstance_absent by done. cbn [fst].
    eapply grows_at_trans; [|apply initializeFacade_grows].
    split; [cbn; lia|]. cbn.
    split; [|split; [|split]];
      (by apply map_grows_at_insert) || apply map_grows_at_refl.
Qed.

Lemma grows_at_allocated (key : JsKey) (st st' : Multiton.t) :
  grows_at key st st' -> instances_allocated st -> instances_allocated st'.
Proof.
  intros (Ha & HM & HV & HC & HF) Hst id [key' Hreg].
  assert (forall m m',
            map_grows_at key (allocated st) (allocated st') m m' ->
            (forall k i, m !! k = Some i -> registered st i) ->
            m' !! key' = Some id -> id < allocated st') as Hone.
  { intros m m' (H1 & H2 & H3) Hm Hid.
    destruct (decide (key' = key)) as [->|Hne].
    - destruct (H3 id Hid) as [Hold|Hnew]; [|lia].
      pose proof (Hst id (Hm _ _ Hold)). lia.
    - rewrite H1 in Hid by done. pose proof (Hst id (Hm _ _ Hid)). lia. }
  destruct Hreg as [H|[H|[H|H]]].
  - apply (Hone _ _ HM); [|done]. intros k i Hk. exists k. by left.
  - apply (Hone _ _ HV); [|done]. intros k i Hk. exists k. right. by left.
  - apply (Hone _ _ HC); [|done]. intros k i Hk. exists k. right. right. by left.
  - apply (Hone _ _ HF); [|done]. intros k i Hk. exists k. right. right. by right.
Qed.

Lemma empty_instances_allocated : instances_allocated Multiton.empty.
Proof.
  intros id [key Hreg]. cbn in Hreg. rewrite !lookup_empty in Hreg.
  by destruct Hreg as [H|[H|[H|H]]].
Qed.

(** X13. [Facade.getInstance] for a key without facade registers a
    facade, a model, a view and a controller under the key, and hands the
    facade back; for a key with a facade it changes nothing and hands
    back that facade. So a second call changes nothing and gives the
    same instance as the first. *)
Theorem Facade_getInstance_builds_the_core_once (key : JsKey) (st : Multiton.t) :
  let r := Facade_getInstance key st in
  (exists f, r.2 = Some f /\ Facade_instanceMap r.1 !! key = Some f)
  /\ hasCore key r.1 = true
  /\ (Facade_instanceMap st !! key = None ->
      is_Some (Model_instanceMap r.1 !! key)
      /\ is_Some (View_instanceMap r.1 !! key)
      /\ is_Some (Controller_instanceMap r.1 !! key))
  /\ (is_Some (Facade_instanceMap st !! key) -> r.1 = st)
  /\ Facade_getInstance key r.1 = r.
Proof.
  cbn zeta.
  destruct (Facade_getInstance_registered key st) as (f & Hf & Hreg).
  split; [by exists f|]. split.
  { unfold hasCore. rewrite Hreg. apply bool_decide_eq_true_2. eauto. }
  split.
  { intros Hnone. rewrite Facade_getInstance_absent by done. cbn [fst].
    apply initializeFacade_registered. }
  split.
  { intros Hsome. by rewrite Facade_getInstance_present. }
  rewrite (Facade_getInstance_present key (Facade_getInstance key st).1)
    by (rewrite Hreg; eauto).
  rewrite Hreg, <- Hf. by destruct (Facade_getInstance key st).
Qed.

(** X14. [Facade.getInstance] for a key never displaces an instance that
    is registered, in any of the four maps and under any key, and it
    changes nothing at all under the other keys. *)
Theorem Facade_getInstance_keeps_what_is_registered
  (key key' : JsKey) (id : ObjectId) (st : Multiton.t) :
  let st' := (Facade_getInstance key st).1 in
  (Model_instanceMap st !! key' = Some id -> Model_instanceMap st' !! key' = Some id)
  /\ (View_instanceMap st !! key' = Some id -> View_instanceMap st' !! key' = Some id)
  /\ (Controller_instanceMap st !! key' = Some id ->
      Controller_instanceMap st' !! key' = Some id)
  /\ (Facade_instanceMap st !! key' = Some id -> Facade_instanceMap st' !! key' = Some id)
  /\ (key' <> key ->
      Model_instanceMap st' !! key' = Model_instanceMap st !! key'
      /\ View_instanceMap st' !! key' = View_instanceMap st !! key'
      /\ Controller_instanceMap st' !! key' = Controller_instanceMap st !! key'
      /\ Facade_instanceMap st' !! key' = Facade_instanceMap st !! key').
Proof.
  cbn zeta.
  destruct (Facade_getInstance_grows key st)
    as (_ & (M1 & M2 & _) & (V1 & V2 & _) & (C1 & C2 & _) & (F1 & F2 & _)).
  assert (forall (m m' : gmap JsKey ObjectId),
            (forall k, k <> key -> m' !! k = m !! k) ->
            (forall i, m !! key = Some i -> m' !! key = Some i) ->
            m !! key' = Some id -> m' !! key' = Some id) as Hkeep.
  { intros m m' H1 H2 Hid. destruct (decide (key' = key)) as [->|Hne].
    - by apply H2.
    - by rewrite H1. }
  split; [by apply Hkeep|]. split; [by apply Hkeep|].
  split; [by apply Hkeep|]. split; [by apply Hkeep|].
  intros Hne. by rewrite M1, V1, C1, F1.
Qed.

(** X15. [Facade.removeCore] for a key that has a facade takes the key
    out of the four maps, and that key only: the instances under the
    other keys stay, and no object is constructed. *)
Theorem removeCore_removes_the_four_instances (key : JsKey) (st : Multiton.t) :
  is_Some (Facade_instanceMap st !! key) ->
  let st' := removeCore key st in
  Model_instanceMap st' !! key = None
  /\ View_instanceMap st' !! key = None
  /\ Controller_instanceMap st' !! key = None
  /\ Facade_instanceMap st' !! key = None
  /\ hasCore key st' = false
  /\ allocated st' = allocated st
  /\ (forall key', key' <> key ->
        Model_instanceMap st' !! key' = Model_instanceMap st !! key'
        /\ View_instanceMap st' !! key' = View_instanceMap st !! key'
        /\ Controller_instanceMap st' !! key' = Controller_instanceMap st !! key'
        /\ Facade_instanceMap st' !! key' = Facade_instanceMap st !! key').
Proof.
  intros Hsome. cbn zeta. unfold removeCore, hasCore.
  rewrite bool_decide_eq_true_2 by done. cbn.
  rewrite !lookup_delete_eq.
  do 4 (split; [reflexivity|]). split.
  { apply bool_decide_eq_false_2. by intros [? ?]. }
  split; [reflexivity|].
  intros key' Hne. by rewrite !lookup_delete_ne.
Qed.

(** X16. Constructing a multiton twice for the same key fails the second
    time, whatever the maps were before: the second [new Model(key)],
    [new View(key)], [new Controller(key)] or [new Facade(key)] throws
    the message of its class and changes nothing. *)
Theorem constructing_twice_throws (key : JsKey) (st : Multiton.t) :
  Model_new key (Model_new key st).1 = ((Model_new key st).1, inl Model_MULTITON_MSG)
  /\ View_new key (View_new key st).1 = ((View_new key st).1, inl View_MULTITON_MSG)
  /\ Controller_new key (Controller_new key st).1
     = ((Controller_new key st).1, inl Controller_MULTITON_MSG)
  /\ Facade_new key (Facade_new key st).1
     = ((Facade_new key st).1, inl Facade_MULTITON_MSG).
Proof.
  split; [|split; [|split]].
  - unfold Model_new at 2 3.
    case_bool_decide as H; cbn [fst]; unfold Model_new.
    + by rewrite bool_decide_eq_true_2.
    + cbn. rewrite lookup_insert_eq. by rewrite bool_decide_eq_true_2 by eauto.
  - unfold View_new at 2 3.
    case_bool_decide as H; cbn [fst]; unfold View_new.
    + by rewrite bool_decide_eq_true_2.
    + cbn. rewrite lookup_insert_eq. by rewrite bool_decide_eq_true_2 by eauto.
  - unfold Controller_new at 2 3.
    case_bool_decide as H; cbn [fst]; unfold Controller_new at 1.
    + by rewrite bool_decide_eq_true_2.
    + rewrite View_getInstance_controllers. cbn.
      rewrite lookup_insert_eq. by rewrite bool_decide_eq_true_2 by eauto.
  - unfold Facade_new at 2 3.
    case_bool_decide as H; cbn [fst]; unfold Facade_new at 1.
    + by rewrite bool_decide_eq_true_2.
    + rewrite initializeFacade_facades. cbn.
      rewrite lookup_insert_eq. by rewrite bool_decide_eq_true_2 by eauto.
Qed.

(** X17. After [removeCore] for a key, [getInstance] for the same key
    builds a core anew: the facade, the model, the view and the
    controller then registered under the key are objects that were in
    none of the maps before. (Every registered object is assumed to have
    been constructed, as it is in any state the factories produce.) *)
Theorem removeCore_then_getInstance_builds_new_instances
  (key : JsKey) (st : Multiton.t) :
  instances_allocated st ->
  is_Some (Facade_instanceMap st !! key) ->
  let r := Facade_getInstance key (removeCore key st) in
  is_Some r.2
  /\ r.2 = Facade_instanceMap r.1 !! key
  /\ is_Some (Model_instanceMap r.1 !! key)
  /\ is_Some (View_instanceMap r.1 !! key)
  /\ is_Some (Controller_instanceMap r.1 !! key)
  /\ (forall id,
        Model_instanceMap r.1 !! key = Some id
        \/ View_instanceMap r.1 !! key = Some id
        \/ Controller_instanceMap r.1 !! key = Some id
        \/ Facade_instanceMap r.1 !! key = Some id ->
        ~ registered st id).
Proof.
  intros Hst Hsome. cbn zeta.
  set (st0 := removeCore key st).
  assert (Model_instanceMap st0 !! key = None
          /\ View_instanceMap st0 !! key = None
          /\ Controller_instanceMap st0 !! key = None
          /\ Facade_instanceMap st0 !! key = None
          /\ allocated st0 = allocated st) as (HM & HV & HC & HF & Ha).
  { unfold st0, removeCore. rewrite bool_decide_eq_true_2 by done. cbn.
    by rewrite !lookup_delete_eq. }
  destruct (Facade_getInstance_registered key st0) as (f & Hf & Hreg).
  pose proof (Facade_getInstance_grows key st0)
    as (_ & (_ & _ & M3) & (_ & _ & V3) & (_ & _ & C3) & (_ & _ & F3)).
  split; [rewrite Hf; eauto|]. split; [by rewrite Hf, Hreg|].
  rewrite (Facade_getInstance_absent key st0 HF) in *. cbn [fst snd] in *.
  split; [apply initializeFacade_registered|].
  split; [apply initializeFacade_registered|].
  split; [apply initializeFacade_registered|].
  intros id Hid Hold. apply Hst in Hold.
  destruct Hid as [H|[H|[H|H]]].
  - destruct (M3 id H) as [H'|H']; [|lia].
    pose proof (eq_trans (eq_sym H') HM) as Habs. discriminate Habs.
  - destruct (V3 id H) as [H'|H']; [|lia].
    pose proof (eq_trans (eq_sym H') HV) as Habs. discriminate Habs.
  - destruct (C3 id H) as [H'|H']; [|lia].
    pose proof (eq_trans (eq_sym H') HC) as Habs. discriminate Habs.
  - destruct (F3 id H) as [H'|H']; [|lia].
    pose proof (eq_trans (eq_sym H') HF) as Habs. discriminate Habs.
Qed.

End MultitonLifecycle.

Lemma core_instances_allocated :
  instances_allocated (Multiton.Facade_getInstance (KStr "game") Multiton.empty).1.
Proof.
  eapply grows_at_allocated;
    [apply Facade_getInstance_grows | apply empty_instances_allocated].
Qed.

Lemma removeCore_removes_witness :
  Multiton.hasCore (KStr "game")
    (Multiton.removeCore (KStr "game")
       (Multiton.Facade_getInstance (KStr "game") Multiton.empty).1) = false.
Proof.
  refine (proj1 (proj2 (proj2 (proj2 (proj2
    (removeCore_removes_the_four_instances (KStr "game")
       (Multiton.Facade_getInstance (KStr "game") Multiton.empty).1 _)))))).
  vm_compute. eauto.
Defined.

Lemma removeCore_then_getInstance_witness :
  is_Some
    (Multiton.Facade_getInstance (KStr "game")
       (Multiton.removeCore (KStr "game")
          (Multiton.Facade_getInstance (KStr "game") Multiton.empty).1)).2.
Proof.
  refine (proj1 (removeCore_then_getInstance_builds_new_instances (KStr "game")
                   (Multiton.Facade_getInstance (KStr "game") Multiton.empty).1
                   core_instances_allocated _)).
  vm_compute. eauto.
Defined.

(** ** MacroCommand: composition, bounds, synchronous throws *)

Section MacroCommandMore.

Import MacroCommand.

Context {W : Type}.
Variable construct : CommandClass -> W -> W * option Error.
Variable command_execute : CommandClass -> JsKey -> Notification -> Call W.


Lemma start_all_app (i : nat) (pre post : list CommandClass)
  (key : JsKey) (n : Notification) (w : W) :
  start_all construct command_execute i (pre ++ post) key n w
  = match start_all construct command_execute i pre key n w with
    | (w1, tr1, inr ps1) =>
        let '(w2, tr2, r) :=
          start_all construct command_execute (i + length pre) post key n w1 in
        (w2, tr1 ++ tr2,
         match r with
         | inl e => inl e
         | inr ps2 => inr (ps1 ++ ps2)
         end)
    | (w1, tr1, inl e) => (w1, tr1, inl e)
    end.
Proof.
  revert i w. induction pre as [|c pre IH]; intros i w.
  - cbn. rewrite Nat.add_0_r.
    by destruct (start_all construct command_execute i post key n w)
      as [[w2 tr2] [e|ps2]].
  - cbn [app start_all length].
    destruct (construct c w) as [w1 [e|]]; [done|].
    destruct (command_execute c key n w1) as [w2 [e|p]]; [done|].
    rewrite IH. replace (i + S (length pre)) with (S i + length pre) by lia.
    destruct (start_all construct command_execute (S i) pre key n w2)
      as [[w3 tr] [e|ps1]]; [done|].
    by destruct (start_all construct command_execute (S i + length pre) post key n w3)
      as [[w4 tr2] [e|ps2]].
Qed.

(** What the relations on the sub-commands' own code make of [map]. *)
Lemma each_returns_a_promise_start_all (i : nat) (subs : list CommandClass)
  (key : JsKey) (n : Notification) (w w' : W) :
  each_returns_a_promise construct command_execute key n subs w w' ->
  exists ps,
    start_all construct command_execute i subs key n w
    = (w', started_in_order i subs key n, inr ps).
Proof.
  intros H. revert i.
  induction H as [w|c rest w w1 w2 p w' Hnew Hexec _ IH]; intros i.
  - by exists [].
  - destruct (IH (S i)) as [ps Hps]. exists (p :: ps).
    cbn [start_all started_in_order]. by rewrite Hnew, Hexec, Hps.
Qed.

Lemma throws_start_all (i : nat) (C : CommandClass) (post : list CommandClass)
  (key : JsKey) (n : Notification) (w w' : W) (tr : list Event) (e : Error) :
  throws construct command_execute i C key n w w' tr e ->
  start_all construct command_execute i (C :: post) key n w = (w', tr, inl e).
Proof.
  intros [w1 e' Hnew|w1 w2 e' Hnew Hexec]; cbn [start_all].
  - by rewrite Hnew.
  - by rewrite Hnew, Hexec.
Qed.

Lemma throws_positions (i : nat) (C : CommandClass) (key : JsKey)
  (n : Notification) (w w' : W) (tr : list Event) (e : Error) :
  throws construct command_execute i C key n w w' tr e ->
  Forall (fun ev => position ev = i /\ ~ is_Finished ev) tr.
Proof.
  intros [w1 e' Hnew|w1 w2 e' Hnew Hexec]; repeat constructor; cbn; tauto.
Qed.

Lemma started_in_order_positions (i : nat) (subs : list CommandClass)
  (key : JsKey) (n : Notification) :
  Forall (fun ev => i <= position ev < i + length subs /\ ~ is_Finished ev)
    (started_in_order i subs key n).
Proof.
  revert i. induction subs as [|c subs IH]; intros i; [by constructor|].
  cbn [started_in_order length].
  repeat (constructor; [cbn; split; [lia|by intros []]|]).
  eapply Forall_impl; [exact (IH (S i))|]. cbn. intros ev [? ?]. split; [lia|done].
Qed.

(** X19. In a parallel macro, let the sub-commands before [C] each be
    constructed and hand a promise back from [execute], and let [C], in
    the world they leave, throw before it has handed a promise back
    (from its constructor or from its [execute]). The throw leaves the
    [map] call: the macro is rejected with the thrown error in the world
    the throw has left, the sub-commands before [C] have been started in
    order and none of them is awaited, and no sub-command after [C] is
    instantiated. The hypotheses are on the code of the sub-commands. *)
Theorem parallel_macro_stops_at_a_synchronous_throw
  (schedule : list nat) (n : Notification) (m : MacroCommand.t)
  (pre post : list CommandClass) (C : CommandClass)
  (w w1 w2 : W) (trC : list Event) (e : Error) :
  sequentialExecution m = false ->
  subCommands m = pre ++ C :: post ->
  each_returns_a_promise construct command_execute (multitonKey m) n pre w w1 ->
  throws construct command_execute (length pre) C (multitonKey m) n w1 w2 trC e ->
  execute construct command_execute schedule n m w
  = (w2, started_in_order 0 pre (multitonKey m) n ++ trC, Rejected e)
  /\ Forall (fun ev => position ev <= length pre /\ ~ is_Finished ev)
       (execute construct command_execute schedule n m w).1.2.
Proof.
  intros Hpar Hsubs Hpre HC.
  destruct (each_returns_a_promise_start_all 0 pre _ _ _ _ Hpre) as [ps Hstart].
  assert (execute construct command_execute schedule n m w
          = (w2, started_in_order 0 pre (multitonKey m) n ++ trC, Rejected e))
    as Hrun.
  { unfold execute, execute_parallel. rewrite Hpar, Hsubs. cbn [negb].
    rewrite start_all_app, Hstart. cbn [Nat.add].
    by rewrite (throws_start_all _ _ post _ _ _ _ _ _ HC). }
  split; [exact Hrun|]. rewrite Hrun. cbn [fst snd].
  apply Forall_app. split.
  - eapply Forall_impl; [apply (started_in_order_positions 0)|].
    cbn. intros ev [? ?]. split; [lia|done].
  - eapply Forall_impl; [exact (throws_positions _ _ _ _ _ _ _ _ HC)|].
    cbn. intros ev [? ?]. split; [lia|done].
Qed.

End MacroCommandMore.


Lemma parallel_macro_stops_at_a_synchronous_throw_witness :
  MacroCommand.execute construct_ok logging_execute [0; 0] game_over
    (macro_of false [1; 3; 2]) []
  = (["A starts"; "C throws"],
     [MacroCommand.Instantiated 0 1;
      MacroCommand.Executed 0 1 (KStr "core") game_over;
      MacroCommand.Instantiated 1 3;
      MacroCommand.Executed 1 3 (KStr "core") game_over],
     Rejected "C threw").
Proof.
  refine (proj1 (parallel_macro_stops_at_a_synchronous_throw construct_ok
            logging_execute [0; 0] game_over (macro_of false [1; 3; 2])
            [1] [2] 3 [] ["A starts"] ["A starts"; "C throws"]
            [MacroCommand.Instantiated 1 3;
             MacroCommand.Executed 1 3 (KStr "core") game_over]
            "C threw" _ _ _ _)).
  - reflexivity.
  - reflexivity.
  - eapply MacroCommand.each_returns_cons;
      [reflexivity | reflexivity | apply MacroCommand.each_returns_nil].
  - eapply MacroCommand.execute_throws; reflexivity.
Defined.

Section ParallelOnce.

Import MacroCommand.

Context {W : Type}.
Variable construct : CommandClass -> W -> W * option Error.
Variable command_execute : CommandClass -> JsKey -> Notification -> Call W.








End ParallelOnce.


(** ** Facade: from [sendNotification] to the command *)

Section FacadeDispatch.

Variable executeCommand_fn : FunctionId.
Variable construct : CommandClass -> Facade.t -> Facade.t * option Error.
Variable command_execute : CommandClass -> JsKey -> Notification -> Call Facade.t.
Variable callback : FunctionId -> ObjectId -> Notification -> Call Facade.t.


End FacadeDispatch.


(** ** The two loops of [notifyObservers] compared *)

Section TwoLoops.

Import View.

Variable callback : FunctionId -> ObjectId -> Notification -> Call View.t.

Lemma notify_each_await_each_agree (observers : list Observer) (n : Notification)
  (v : View.t) :
  (forall f ctx n0 v0, (callback f ctx n0 v0).2 = Returned (Settled Fulfilled)) ->
  (await_each callback observers n v).1.1 = (notify_each callback observers n v).1.1
  /\ (await_each callback observers n v).2 = Fulfilled
  /\ invoked (await_each callback observers n v).1.2 = observers
  /\ Forall (fun p => p = Settled Fulfilled) (notify_each callback observers n v).2.
Proof.
  intros Hsync. revert v. induction observers as [|o rest IH]; intros v.
  { by repeat split. }
  cbn [await_each notify_each].
  assert ((notifyObserver callback o n v).2 = Settled Fulfilled) as Hp.
  { unfold notifyObserver. destruct (getNotifyMethod o) as [f|]; [|done].
    specialize (Hsync f (getNotifyContext o) n v).
    destruct (callback f (getNotifyContext o) n v) as [v' r]. cbn in *. by subst r. }
  destruct (notifyObserver callback o n v) as [v1 p]. cbn in Hp. subst p.
  cbn [await]. specialize (IH v1).
  destruct (await_each callback rest n v1) as [[v3 tr] r'].
  destruct (notify_each callback rest n v1) as [[v2 tr2] ps].
  cbn in *. destruct IH as (-> & -> & Hinv & Hps).
  split; [done|]. split; [done|]. split.
  - unfold invoked in *. cbn. by rewrite Hinv.
  - by constructor.
Qed.

(** X22. When every function that observers wrap runs to its end
    without suspending and without failing, the [notifyObservers] of
    core/View.ts and the awaiting one of the bundle do the same: they
    call the same observers in the same order and leave the View in the
    same state; the bundle's call is fulfilled, and the promises that
    core/View.ts drops are all settled already. *)
Theorem notifyObservers_loops_agree_on_synchronous_observers
  (n : Notification) (v : View.t) :
  (forall f ctx n0 v0, (callback f ctx n0 v0).2 = Returned (Settled Fulfilled)) ->
  (notifyObservers_bundle callback n v).1.1 = (notifyObservers callback n v).1.1
  /\ (notifyObservers_bundle callback n v).2 = Fulfilled
  /\ invoked (notifyObservers_bundle callback n v).1.2
     = invoked (notifyObservers callback n v).1.2
  /\ Forall (fun p => p = Settled Fulfilled) (notifyObservers callback n v).2.
Proof.
  intros Hsync. unfold notifyObservers_bundle, notifyObservers.
  destruct (observerMap v !! getName n) as [observers|]; [|by repeat split].
  destruct (notify_each_await_each_agree observers n v Hsync) as (H1 & H2 & H3 & H4).
  split; [done|]. split; [done|]. split; [|done].
  by rewrite H3, notify_each_trace, invoked_Invoked.
Qed.

End TwoLoops.

Lemma notifyObservers_loops_agree_witness :
  (notifyObservers_bundle (fun _ _ _ v => (v, Returned (Settled Fulfilled)))
     game_over view_with_two_observers).2 = Fulfilled.
Proof.
  refine (proj1 (proj2 (notifyObservers_loops_agree_on_synchronous_observers
            (fun _ _ _ v => (v, Returned (Settled Fulfilled)))
            game_over view_with_two_observers _))).
  reflexivity.
Defined.

(** ** [Controller.getInstance] and the view *)

Section ControllerFactory.

Import Multiton.

Lemma View_getInstance_models (key : JsKey) (st : Multiton.t) :
  Model_instanceMap (View_getInstance key st).1 = Model_instanceMap st.
Proof.
  unfold View_getInstance, View_new. cbn.
  destruct (bool_decide (is_Some (View_instanceMap st !! key))); reflexivity.
Qed.

(** X23. [Controller.getInstance] for a key registers a controller under
    the key and, when it has to construct one, sees to it that a view is
    registered under the key too: it keeps the view that is there and
    constructs one otherwise. The models and the facades are untouched,
    and a second call changes nothing. *)
Theorem Controller_getInstance_brings_its_view (key : JsKey) (st : Multiton.t) :
  let r := Controller_getInstance key st in
  is_Some r.2
  /\ r.2 = Controller_instanceMap r.1 !! key
  /\ (Controller_instanceMap st !! key = None ->
      is_Some (View_instanceMap r.1 !! key))
  /\ (forall view, View_instanceMap st !! key = Some view ->
        View_instanceMap r.1 !! key = Some view)
  /\ Model_instanceMap r.1 = Model_instanceMap st
  /\ Facade_instanceMap r.1 = Facade_instanceMap st
  /\ Controller_getInstance key r.1 = r.
Proof.
  cbn zeta.
  pose proof (Controller_getInstance_registered key st) as Hreg.
  assert ((Controller_getInstance key st).2
          = Controller_instanceMap (Controller_getInstance key st).1 !! key) as Hsnd.
  { reflexivity. }
  split; [by rewrite Hsnd|]. split; [exact Hsnd|]. split.
  { intros Hnone. unfold Controller_getInstance, Controller_new. rewrite Hnone.
    rewrite bool_decide_eq_false_2 by (by intros [? ?]). cbn [negb fst].
    cbn [View_instanceMap]. apply View_getInstance_registered. }
  split.
  { intros view Hview.
    destruct (Controller_getInstance_grows key st) as (_ & _ & (_ & HV & _) & _).
    by apply HV. }
  split.
  { unfold Controller_getInstance, Controller_new.
    case_bool_decide; cbn [negb fst]; [done|].
    cbn [Model_instanceMap]. by rewrite View_getInstance_models. }
  split; [apply Controller_getInstance_facades|].
  unfold Controller_getInstance at 1.
  rewrite bool_decide_eq_true_2 by done. cbn [negb].
  rewrite <- Hsnd. by destruct (Controller_getInstance key st).
Qed.

End ControllerFactory.

Lemma removeObserver_takes_out_witness :
  observerMap (removeObserver "GAME_OVER" 102 view_with_two_observers) !! "PAUSE"
  = observerMap view_with_two_observers !! "PAUSE".
Proof.
  refine (proj2 (proj2 (proj2
    (removeObserver_takes_out_the_last_of_the_context "GAME_OVER" 102
       view_with_two_observers))) "PAUSE" _).
  discriminate.
Defined.

Lemma Facade_getInstance_builds_witness :
  Multiton.hasCore (KStr "game")
    (Multiton.Facade_getInstance (KStr "game") Multiton.empty).1 = true.
Proof.
  exact (proj1 (proj2 (Facade_getInstance_builds_the_core_once (KStr "game")
                         Multiton.empty))).
Defined.

Lemma Facade_getInstance_keeps_witness :
  Multiton.Model_instanceMap
    (Multiton.Facade_getInstance (KStr "menu")
       (Multiton.Facade_getInstance (KStr "game") Multiton.empty).1).1
    !! KStr "game" = Some 1.
Proof.
  refine (proj1 (Facade_getInstance_keeps_what_is_registered (KStr "menu")
                   (KStr "game") 1
                   (Multiton.Facade_getInstance (KStr "game") Multiton.empty).1) _).
  vm_compute. reflexivity.
Defined.

Lemma Controller_getInstance_brings_witness :
  is_Some
    (Multiton.View_instanceMap
       (Multiton.Controller_getInstance (KStr "game") Multiton.empty).1
       !! KStr "game").
Proof.
  refine (proj1 (proj2 (proj2 (Controller_getInstance_brings_its_view (KStr "game")
                                  Multiton.empty))) _).
  reflexivity.
Defined.
